(** * SSHPong: the simulation and rendering engine of [pong.js]

    A shallow embedding of the game engine: the shared [gameState]
    object, the tick function [gameLoop] with its helpers [resetBall],
    [moveAIPaddle] and [renderGame], the input handler installed by
    [startGame], and the terminal-size handlers of the session.

    Number model.  JavaScript numbers are modelled by exact rationals
    ([Q]): every constant of the program (0.5, 0.4, 0.8, 0.2, 2.5) is a
    rational and the program only adds, subtracts, multiplies, compares,
    floors and takes absolute values, minima and maxima.  The rounding of
    IEEE doubles is not modelled in the game state.  [rows], [columns]
    and the scores are integers ([Z]).  The statements below compare the
    values the program stores and tests, and bound them by closed
    intervals, so that they do not depend on a result being exact; the
    module [Double] evaluates the two expressions where rounding shows
    (the serve and the integration) in the program's own binary64
    arithmetic.

    Effects.  The program mutates one global object, draws random
    numbers, arms timers and writes frames to a stream.  These are the
    components of [World]; the functions of the program are actions of
    the state monad [M] over [World].  JavaScript runs every callback to
    completion, so one callback is one transition of the world. *)

From Stdlib Require Import ZArith QArith Qabs Qround Qminmax.
From Stdlib Require Import Bool List String Ascii.
From Stdlib Require Import Lia Lqa.
From Stdlib Require Import DecimalString.
From Stdlib Require PrimFloat.
Import ListNotations.

Local Open Scope Q_scope.

(** ** Numbers *)

Module Num.

(** [a < b] as the program evaluates it. *)
Definition ltb (a b : Q) : bool := negb (Qle_bool b a).

(** [a <= b]. *)
Definition leb (a b : Q) : bool := Qle_bool a b.

(** [a > b] and [a >= b]. *)
Definition gtb (a b : Q) : bool := ltb b a.
Definition geb (a b : Q) : bool := leb b a.

(** [Math.floor], as a number again. *)
Definition floor (a : Q) : Q := inject_Z (Qfloor a).

(** A number that is an integer. *)
Definition is_int (a : Q) : Prop := exists z : Z, a == inject_Z z.

End Num.

(** The same expressions in binary64, the arithmetic the program runs
    on: the decimal constants stand for the nearest doubles. *)
Module Double.

Import PrimFloat.
#[local] Set Warnings "-inexact-float".
Local Open Scope float_scope.

(** A speed of [resetBall]:
    [(Math.random() > 0.5 ? 0.5 : -0.5) * (0.8 + Math.random() * 0.4)]
    for the two draws [r1] and [r2]. *)
Definition serve (r1 r2 : float) : float :=
  (if 0.5 <? r1 then 0.5 else -0.5) * (0.8 + r2 * 0.4).

(** [gameState.ballX += gameState.ballSpeedX]. *)
Definition integrate (x v : float) : float := x + v.





(** A column next to the right edge of the default board, the edge, and
    the double just below 0.5, a speed a serve can have. *)
Definition d0_5 : float := 0.5.
Definition d79_5 : float := 79.5.
Definition d80 : float := 80.
Definition underHalf : float := 0x1.fffffffffffffp-2.

End Double.

(** ** The game state *)

(** The object [gameState]. *)
Record GameState : Type := mkGame {
  paddleLeft : Q;
  paddleRight : Q;
  ballX : Q;
  ballY : Q;
  ballSpeedX : Q;
  ballSpeedY : Q;
  scoreLeft : Z;
  scoreRight : Z;
  paused : bool;
  rows : Z;
  columns : Z
}.

(** Its value when the process starts. *)
Definition initialGame : GameState :=
  {| paddleLeft := 0; paddleRight := 0; ballX := 0; ballY := 0;
     ballSpeedX := 0.5; ballSpeedY := 0.5;
     scoreLeft := 0; scoreRight := 0; paused := false;
     rows := 24; columns := 80 |}.

(** Assignments to single fields. *)
Definition set_paddleLeft (v : Q) (s : GameState) : GameState :=
  mkGame v (paddleRight s) (ballX s) (ballY s) (ballSpeedX s) (ballSpeedY s)
         (scoreLeft s) (scoreRight s) (paused s) (rows s) (columns s).
Definition set_paddleRight (v : Q) (s : GameState) : GameState :=
  mkGame (paddleLeft s) v (ballX s) (ballY s) (ballSpeedX s) (ballSpeedY s)
         (scoreLeft s) (scoreRight s) (paused s) (rows s) (columns s).
Definition set_ballX (v : Q) (s : GameState) : GameState :=
  mkGame (paddleLeft s) (paddleRight s) v (ballY s) (ballSpeedX s) (ballSpeedY s)
         (scoreLeft s) (scoreRight s) (paused s) (rows s) (columns s).
Definition set_ballY (v : Q) (s : GameState) : GameState :=
  mkGame (paddleLeft s) (paddleRight s) (ballX s) v (ballSpeedX s) (ballSpeedY s)
         (scoreLeft s) (scoreRight s) (paused s) (rows s) (columns s).
Definition set_ballSpeedX (v : Q) (s : GameState) : GameState :=
  mkGame (paddleLeft s) (paddleRight s) (ballX s) (ballY s) v (ballSpeedY s)
         (scoreLeft s) (scoreRight s) (paused s) (rows s) (columns s).
Definition set_ballSpeedY (v : Q) (s : GameState) : GameState :=
  mkGame (paddleLeft s) (paddleRight s) (ballX s) (ballY s) (ballSpeedX s) v
         (scoreLeft s) (scoreRight s) (paused s) (rows s) (columns s).
Definition set_scoreLeft (v : Z) (s : GameState) : GameState :=
  mkGame (paddleLeft s) (paddleRight s) (ballX s) (ballY s) (ballSpeedX s) (ballSpeedY s)
         v (scoreRight s) (paused s) (rows s) (columns s).
Definition set_scoreRight (v : Z) (s : GameState) : GameState :=
  mkGame (paddleLeft s) (paddleRight s) (ballX s) (ballY s) (ballSpeedX s) (ballSpeedY s)
         (scoreLeft s) v (paused s) (rows s) (columns s).
Definition set_paused (v : bool) (s : GameState) : GameState :=
  mkGame (paddleLeft s) (paddleRight s) (ballX s) (ballY s) (ballSpeedX s) (ballSpeedY s)
         (scoreLeft s) (scoreRight s) v (rows s) (columns s).
Definition set_rows (v : Z) (s : GameState) : GameState :=
  mkGame (paddleLeft s) (paddleRight s) (ballX s) (ballY s) (ballSpeedX s) (ballSpeedY s)
         (scoreLeft s) (scoreRight s) (paused s) v (columns s).
Definition set_columns (v : Z) (s : GameState) : GameState :=
  mkGame (paddleLeft s) (paddleRight s) (ballX s) (ballY s) (ballSpeedX s) (ballSpeedY s)
         (scoreLeft s) (scoreRight s) (paused s) (rows s) v.

(** ** The world around the game state *)

(** [rand] is the sequence of values [Math.random] will return;
    [timers] counts the pending [setTimeout(() => gameLoop(stream), 50)]
    callbacks, one per running tick loop; [starts] counts the pending
    [setTimeout(() => startGame(stream), 1000)] callbacks; [listeners]
    counts the streams with a ['data'] handler; [written] holds what
    was written to the streams, latest first. *)
Record World : Type := mkWorld {
  game : GameState;
  rand : nat -> Q;
  timers : nat;
  starts : nat;
  listeners : nat;
  written : list string
}.

(** The random source returns values in [0, 1). *)
Definition valid_rand (g : nat -> Q) : Prop := forall n : nat, 0 <= g n /\ g n < 1.

(** ** The monad of the program's actions *)

Definition M (A : Type) : Type := World -> A * World.

Definition ret {A : Type} (a : A) : M A := fun w => (a, w).

Definition bind {A B : Type} (m : M A) (k : A -> M B) : M B :=
  fun w => let (a, w1) := m w in k a w1.

Declare Scope action_scope.
Delimit Scope action_scope with action.
Notation "x <- m ;; k" := (bind m (fun x => k))
  (at level 61, m at next level, right associativity) : action_scope.
Notation "m ;; k" := (bind m (fun _ => k))
  (at level 61, right associativity) : action_scope.
Local Open Scope action_scope.

(** The world an action leaves behind. *)
Definition exec {A : Type} (m : M A) (w : World) : World := snd (m w).

(** Read the game state. *)
Definition gameState : M GameState := fun w => (game w, w).

(** Mutate the game state. *)
Definition assign (f : GameState -> GameState) : M unit :=
  fun w => (tt, mkWorld (f (game w)) (rand w) (timers w) (starts w)
                        (listeners w) (written w)).

(** [Math.random()]. *)
Definition Math_random : M Q :=
  fun w => (rand w 0%nat,
            mkWorld (game w) (fun n => rand w (S n)) (timers w) (starts w)
                    (listeners w) (written w)).

(** [setTimeout(() => gameLoop(stream), 50)]. *)
Definition scheduleGameLoop : M unit :=
  fun w => (tt, mkWorld (game w) (rand w) (S (timers w)) (starts w)
                        (listeners w) (written w)).

(** [setTimeout(() => startGame(stream), 1000)]. *)
Definition scheduleStartGame : M unit :=
  fun w => (tt, mkWorld (game w) (rand w) (timers w) (S (starts w))
                        (listeners w) (written w)).

(** [stream.on('data', ...)]. *)
Definition onData : M unit :=
  fun w => (tt, mkWorld (game w) (rand w) (timers w) (starts w)
                        (S (listeners w)) (written w)).

(** [stream.write(output)]. *)
Definition stream_write (output : string) : M unit :=
  fun w => (tt, mkWorld (game w) (rand w) (timers w) (starts w)
                        (listeners w) (output :: written w)).

(** An [if] without [else]. *)
Definition when (c : bool) (m : M unit) : M unit := if c then m else ret tt.

(** ** resetBall *)

Definition resetBall : M unit :=
  s <- gameState ;;
  assign (set_ballX (Num.floor (inject_Z (columns s) / 2))) ;;
  assign (set_ballY (Num.floor (inject_Z (rows s) / 2))) ;;
  r1 <- Math_random ;;
  r2 <- Math_random ;;
  assign (set_ballSpeedX ((if Num.gtb r1 0.5 then 0.5 else -0.5) * (0.8 + r2 * 0.4))) ;;
  r3 <- Math_random ;;
  r4 <- Math_random ;;
  assign (set_ballSpeedY ((if Num.gtb r3 0.5 then 0.5 else -0.5) * (0.8 + r4 * 0.4))).

(** ** moveAIPaddle *)

Definition moveSpeed : Q := 0.4.

Definition moveAIPaddle : M unit :=
  s <- gameState ;;
  let paddleCenter := paddleRight s + 2.5 in
  if Num.ltb (ballY s) (paddleCenter - 1) then
    assign (set_paddleRight (Qmax 0 (paddleRight s - moveSpeed)))
  else if Num.gtb (ballY s) (paddleCenter + 1) then
    assign (set_paddleRight (Qmin (inject_Z (rows s) - 6) (paddleRight s + moveSpeed)))
  else ret tt.

(** ** gameLoop *)

(** Update ball position. *)
Definition updateBallPosition : M unit :=
  assign (fun s => set_ballX (ballX s + ballSpeedX s) s) ;;
  assign (fun s => set_ballY (ballY s + ballSpeedY s) s).

(** Check collisions with walls. *)
Definition checkWalls : M unit :=
  s <- gameState ;;
  when (Num.leb (ballY s) 0 || Num.geb (ballY s) (inject_Z (rows s) - 1))
       (assign (fun s => set_ballSpeedY (ballSpeedY s * -1) s)).

(** Check collisions with paddles: the left one... *)
Definition checkLeftPaddle : M unit :=
  s <- gameState ;;
  when (Num.leb (ballX s) 1
        && Num.geb (ballY s) (paddleLeft s)
        && Num.leb (ballY s) (paddleLeft s + 5))
       (assign (fun s => set_ballSpeedX (Qabs (ballSpeedX s)) s) ;;
        r <- Math_random ;;
        assign (fun s => set_ballSpeedY (ballSpeedY s + (r - 0.5) * 0.2) s)).

(** ... and the right one. *)
Definition checkRightPaddle : M unit :=
  s <- gameState ;;
  when (Num.geb (ballX s) (inject_Z (columns s) - 2)
        && Num.geb (ballY s) (paddleRight s)
        && Num.leb (ballY s) (paddleRight s + 5))
       (assign (fun s => set_ballSpeedX (- Qabs (ballSpeedX s)) s) ;;
        r <- Math_random ;;
        assign (fun s => set_ballSpeedY (ballSpeedY s + (r - 0.5) * 0.2) s)).

(** Ensure ball stays within vertical bounds. *)
Definition clampBall : M unit :=
  assign (fun s => set_ballY (Qmax 0 (Qmin (inject_Z (rows s) - 1) (ballY s))) s).

(** Check for scoring. *)
Definition checkScoring : M unit :=
  s <- gameState ;;
  if Num.ltb (ballX s) 0 then
    assign (fun s => set_scoreRight (scoreRight s + 1)%Z s) ;;
    resetBall
  else if Num.geb (ballX s) (inject_Z (columns s)) then
    assign (fun s => set_scoreLeft (scoreLeft s + 1)%Z s) ;;
    resetBall
  else ret tt.

(** *** renderGame *)

Local Open Scope string_scope.

(** The byte 0x1b. *)
Definition ESC : string := String (ascii_of_nat 27) EmptyString.

(** An integer inside a template literal. *)
Definition num (z : Z) : string := NilZero.string_of_int (Z.to_int z).

(** The ball glyph U+25CF, three bytes in UTF-8: e2 97 8f. *)
Definition glyphLead : ascii := ascii_of_nat 226.
Definition ballGlyph : string :=
  String glyphLead (String (ascii_of_nat 151) (String (ascii_of_nat 143) EmptyString)).

(** The two paddle cells of row [i] of the paddles. *)
Definition paddleCells (s : GameState) (i : nat) : string :=
  (ESC ++ "[" ++ num (Qfloor (paddleLeft s) + Z.of_nat i + 1) ++ ";1H" ++ ESC ++ "[32m|" ++ ESC ++ "[0m")
  ++ (ESC ++ "[" ++ num (Qfloor (paddleRight s) + Z.of_nat i + 1) ++ ";" ++ num (columns s) ++ "H"
          ++ ESC ++ "[32m|" ++ ESC ++ "[0m").

(** The cell of the middle bar in row [i]. *)
Definition barCell (s : GameState) (i : nat) : string :=
  ESC ++ "[" ++ num (Z.of_nat i + 1) ++ ";" ++ num (Qfloor (inject_Z (columns s) / 2)) ++ "H"
      ++ ESC ++ "[37m|" ++ ESC ++ "[0m".

(** The ball. *)
Definition ballCell (s : GameState) : string :=
  ESC ++ "[" ++ num (Qfloor (ballY s) + 1) ++ ";" ++ num (Qfloor (ballX s) + 1) ++ "H"
      ++ ESC ++ "[31m" ++ ballGlyph ++ ESC ++ "[0m".

(** Player/computer indicators and scores. *)
Definition scoreCells (s : GameState) : string :=
  (ESC ++ "[" ++ num (rows s) ++ ";" ++ num (Qfloor (inject_Z (columns s) / 4) - 10) ++ "H"
       ++ ESC ++ "[36mPLAYER: " ++ num (scoreLeft s) ++ ESC ++ "[0m")
  ++ (ESC ++ "[" ++ num (rows s) ++ ";" ++ num (Qfloor (3 * inject_Z (columns s) / 4) - 14) ++ "H"
          ++ ESC ++ "[36mCOMPUTER: " ++ num (scoreRight s) ++ ESC ++ "[0m").

(** The string [output] that [renderGame] builds: each loop appends to
    it, iteration by iteration. *)
Definition frame (s : GameState) : string :=
  let output := ESC ++ "[2J" ++ ESC ++ "[H" in
  let output := fold_left (fun output i => output ++ paddleCells s i) (seq 0 6) output in
  let output := fold_left (fun output i => output ++ barCell s i)
                          (seq 0 (Z.to_nat (rows s))) output in
  let output := output ++ ballCell s in
  output ++ scoreCells s.

Definition renderGame : M unit :=
  s <- gameState ;;
  stream_write (frame s).

Local Close Scope string_scope.

(** *** The tick *)

(** What one call of [gameLoop] does; the recursion of the program goes
    through the timer, which [scheduleGameLoop] arms. *)
Definition gameLoop : M unit :=
  s <- gameState ;;
  if paused s then scheduleGameLoop
  else
    updateBallPosition ;;
    checkWalls ;;
    checkLeftPaddle ;;
    checkRightPaddle ;;
    clampBall ;;
    checkScoring ;;
    moveAIPaddle ;;
    renderGame ;;
    scheduleGameLoop.

(** ** startGame and its input handler *)

(** The ['data'] handler of [startGame]; [key] is [data.toString()]. *)
Definition handleData (key : string) : M unit :=
  s <- gameState ;;
  if String.eqb key ESC then
    assign (fun s => set_paused (negb (paused s)) s) ;;
    s <- gameState ;;
    when (negb (paused s)) gameLoop
  else if String.eqb key "w" && Num.gtb (paddleLeft s) 0 then
    assign (fun s => set_paddleLeft (paddleLeft s - 1) s)
  else if String.eqb key "s" && Num.ltb (paddleLeft s) (inject_Z (rows s) - 6) then
    assign (fun s => set_paddleLeft (paddleLeft s + 1) s)
  else ret tt.

Definition startGame : M unit :=
  assign (fun s => set_paddleLeft (Num.floor (inject_Z (rows s) / 2) - 3) s) ;;
  assign (fun s => set_paddleRight (Num.floor (inject_Z (rows s) / 2) - 3) s) ;;
  resetBall ;;
  onData ;;
  gameLoop.

(** ** The session handlers *)

(** The [info] object of a pty or window-change request; the transport
    reads both numbers as unsigned 32-bit integers. *)
Record PtyInfo : Type := mkInfo { info_rows : N; info_cols : N }.

(** A number in a condition: zero is false. *)
Definition truthy (n : N) : bool := negb (N.eqb n 0).

(** [session.on('pty', ...)]. *)
Definition onPty (info : option PtyInfo) : M unit :=
  match info with
  | Some i =>
      when (truthy (info_rows i) && truthy (info_cols i))
           (assign (set_rows (Z.of_N (info_rows i))) ;;
            assign (set_columns (Z.of_N (info_cols i))))
  | None => ret tt
  end.

(** [session.on('window-change', ...)]. *)
Definition onWindowChange (info : option PtyInfo) : M unit :=
  match info with
  | Some i =>
      when (truthy (info_rows i) && truthy (info_cols i))
           (assign (set_rows (Z.of_N (info_rows i))) ;;
            assign (set_columns (Z.of_N (info_cols i))))
  | None => ret tt
  end.

Definition welcome : string :=
  ("Welcome to Pong! Use W/S to move. ESC to pause. No commands allowed."
   ++ String (ascii_of_nat 10) (String (ascii_of_nat 13) EmptyString))%string.

(** [session.on('shell', ...)] and [session.on('exec', ...)]. *)
Definition onShell : M unit := stream_write welcome ;; scheduleStartGame.
Definition onExec : M unit := stream_write welcome ;; scheduleStartGame.

(** ** The event loop *)

(** The callbacks the runtime can invoke. *)
Inductive Event : Type :=
| EvPty (info : option PtyInfo)
| EvWindowChange (info : option PtyInfo)
| EvShell
| EvExec
| EvStartGame            (* a pending startGame timeout fires *)
| EvData (key : string)  (* a chunk arrives on a stream with a handler *)
| EvTimer.               (* a pending gameLoop timeout fires *)

(** One callback, run to completion.  A timeout can only fire when it is
    pending, and a chunk is only handled by a registered handler. *)
Definition step (e : Event) : M unit :=
  match e with
  | EvPty info => onPty info
  | EvWindowChange info => onWindowChange info
  | EvShell => onShell
  | EvExec => onExec
  | EvStartGame =>
      fun w => match starts w with
               | O => (tt, w)
               | S n => startGame (mkWorld (game w) (rand w) (timers w) n
                                           (listeners w) (written w))
               end
  | EvData key =>
      fun w => match listeners w with
               | O => (tt, w)
               | S _ => handleData key w
               end
  | EvTimer =>
      fun w => match timers w with
               | O => (tt, w)
               | S n => gameLoop (mkWorld (game w) (rand w) n (starts w)
                                          (listeners w) (written w))
               end
  end.

(** The world when the process starts. *)
Definition initialWorld (g : nat -> Q) : World :=
  mkWorld initialGame g 0 0 0 [].

(** Running a list of events, first event first. *)
Definition run (es : list Event) (w : World) : World :=
  fold_left (fun w e => exec (step e) w) es w.

(** The worlds the program can be in. *)
Inductive reachable : World -> Prop :=
| reach_init (g : nat -> Q) : valid_rand g -> reachable (initialWorld g)
| reach_step (e : Event) (w : World) : reachable w -> reachable (exec (step e) w).

(** ** Predicates on game states *)

(** The bounds of the ball's row. *)
Definition ballY_in_bounds (s : GameState) : Prop :=
  0 <= ballY s /\ ballY s <= inject_Z (rows s) - 1.

(** The bounds of the left paddle. *)
Definition paddleLeft_in_bounds (s : GameState) : Prop :=
  0 <= paddleLeft s /\ paddleLeft s <= inject_Z (rows s) - 6.

(** The bounds of the right paddle. *)
Definition paddleRight_in_bounds (s : GameState) : Prop :=
  0 <= paddleRight s /\ paddleRight s <= inject_Z (rows s) - 6.

(** What a resize must leave alone: everything but [rows] and [columns]. *)
Definition unchanged_by_resize (s s' : GameState) : Prop :=
  paddleLeft s' = paddleLeft s /\ paddleRight s' = paddleRight s
  /\ ballX s' = ballX s /\ ballY s' = ballY s
  /\ ballSpeedX s' = ballSpeedX s /\ ballSpeedY s' = ballSpeedY s
  /\ scoreLeft s' = scoreLeft s /\ scoreRight s' = scoreRight s
  /\ paused s' = paused s.

(** Two states that differ at most in the ball, the scores and the
    right paddle. *)
Definition same_board (s s' : GameState) : Prop :=
  paddleLeft s' = paddleLeft s /\ paused s' = paused s
  /\ rows s' = rows s /\ columns s' = columns s.

(** ** Parts of a tick, and worlds built from a world *)

(** The first five steps of a tick: integration, the wall check, the two
    paddle checks and the clamp. *)
Definition moveBall : M unit :=
  updateBallPosition ;; checkWalls ;; checkLeftPaddle ;; checkRightPaddle ;; clampBall.

(** A world with another game state, and a world after [k] random draws. *)
Definition withGame (s : GameState) (w : World) : World :=
  mkWorld s (rand w) (timers w) (starts w) (listeners w) (written w).
Definition dropRand (k : nat) (w : World) : World :=
  mkWorld (game w) (fun n => rand w (k + n)%nat) (timers w) (starts w)
          (listeners w) (written w).

(** ** Counting a glyph in a frame *)

(** The number of places of [s] where [pat] occurs. *)
Fixpoint occurrences (pat s : string) : nat :=
  match s with
  | EmptyString => if prefix pat s then 1 else 0
  | String _ s' => (if prefix pat s then 1 else 0) + occurrences pat s'
  end.

(** No byte of [s] is [c]. *)
Fixpoint lacks (c : ascii) (s : string) : bool :=
  match s with
  | EmptyString => true
  | String a s' => negb (Ascii.eqb a c) && lacks c s'
  end.

(** ** Sample worlds *)

(** A random source that always returns [q]. *)
Definition constRand (q : Q) : nat -> Q := fun _ => q.

(** A game on the default 24 x 80 board: a shell is requested and
    [startGame] has run, with every random draw equal to 1/2. *)
Definition playing : World :=
  run [EvShell; EvStartGame] (initialWorld (constRand (1 # 2))).

(** The same game after the terminal has shrunk to 10 rows. *)
Definition shrunk : World :=
  run [EvShell; EvStartGame; EvWindowChange (Some (mkInfo 10 80))]
      (initialWorld (constRand (1 # 2))).


(** The ball in the middle of the default board, moving down and right. *)
Definition midfield : World :=
  mkWorld (mkGame 9 9 40 12 0.5 0.5 0 0 false 24 80)
          (constRand (1 # 2)) 1 0 1 [].

(** The ball behind the left edge. *)
Definition behindLeftEdge : World :=
  mkWorld (mkGame 9 9 (-1) 12 (-0.5) 0.5 0 0 false 24 80)
          (constRand (1 # 2)) 1 0 1 [].

(** ** Further predicates and models *)

(** *** The host key

    When the program starts it reads the file [host_key] if it exists,
    and otherwise generates a key and writes it to that file.  [file] is
    the content of the file, if there is one, and [generated] the key
    that [crypto.generateKeyPairSync] would produce; the result is the
    host key and the file afterwards. *)
Definition loadHostKey (generated : string) (file : option string)
  : string * option string :=
  match file with
  | Some content => (content, file)
  | None => (generated, Some generated)
  end.

(** The horizontal speed has the magnitude of a serve. *)
Definition speedX_in_range (s : GameState) : Prop :=
  0.4 <= Qabs (ballSpeedX s) /\ Qabs (ballSpeedX s) <= 0.6.

(** A speed as [resetBall] draws it from two values of the random source. *)
Definition serve (r1 r2 : Q) : Q :=
  (if Num.gtb r1 0.5 then 0.5 else -0.5) * (0.8 + r2 * 0.4).

(** A size the size handlers accept: both numbers are truthy. *)
Definition valid_info (i : PtyInfo) : Prop :=
  info_rows i <> 0%N /\ info_cols i <> 0%N.

(** The callbacks of a size change. *)
Definition is_resize (e : Event) : bool :=
  match e with
  | EvPty _ | EvWindowChange _ => true
  | _ => false
  end.

(** Both paddles on the board, the left one on an integer row. *)
Definition paddles_on_board (s : GameState) : Prop :=
  Num.is_int (paddleLeft s)
  /\ paddleLeft_in_bounds s /\ paddleRight_in_bounds s.

(** The number of bytes of [s] equal to [c]. *)
Fixpoint count (c : ascii) (s : string) : nat :=
  match s with
  | EmptyString => 0
  | String a s' => (if Ascii.eqb a c then 1 else 0) + count c s'
  end.

(** ** Tactics *)

(** Unfold the primitive actions and compute the record projections,
    leaving the arithmetic alone. *)
Ltac actions :=
  cbn [exec bind ret when assign gameState Math_random withGame dropRand
       scheduleGameLoop scheduleStartGame onData stream_write
       set_paddleLeft set_paddleRight set_ballX set_ballY
       set_ballSpeedX set_ballSpeedY set_scoreLeft set_scoreRight
       set_paused set_rows set_columns
       game rand timers starts listeners written
       paddleLeft paddleRight ballX ballY ballSpeedX ballSpeedY
       scoreLeft scoreRight paused rows columns fst snd] in *.

(** Replace the minima and maxima of the goal by what [Q.min_spec] and
    [Q.max_spec] say about them, the minima first. *)
Ltac minmax :=
  repeat match goal with
  | |- context [Qmin ?a ?b] =>
      let H := fresh "Hmin" in let v := fresh "m" in
      destruct (Q.min_spec a b) as [[? H]|[? H]];
      revert H; generalize (Qmin a b); intros v H
  | |- context [Qmax ?a ?b] =>
      let H := fresh "Hmax" in let v := fresh "m" in
      destruct (Q.max_spec a b) as [[? H]|[? H]];
      revert H; generalize (Qmax a b); intros v H
  end.

(** * Properties *)

(** ** Comparisons and floors *)

Module NumFacts.

Lemma ltb_lt a b : Num.ltb a b = true <-> a < b.
Proof.
  unfold Num.ltb. rewrite negb_true_iff, <- not_true_iff_false, Qle_bool_iff.
  split; [apply Qnot_le_lt | apply Qlt_not_le].
Qed.

Lemma ltb_ge a b : Num.ltb a b = false <-> b <= a.
Proof.
  unfold Num.ltb. rewrite negb_false_iff. apply Qle_bool_iff.
Qed.

Lemma leb_le a b : Num.leb a b = true <-> a <= b.
Proof. apply Qle_bool_iff. Qed.

Lemma leb_gt a b : Num.leb a b = false <-> b < a.
Proof.
  unfold Num.leb. rewrite <- not_true_iff_false, Qle_bool_iff.
  split; [apply Qnot_le_lt | apply Qlt_not_le].
Qed.

Lemma floor_half (z : Z) : Num.floor (inject_Z z / 2) = inject_Z (z / 2).
Proof.
  unfold Num.floor, Qfloor, Qdiv, Qmult, Qinv, inject_Z; simpl.
  now rewrite Z.mul_1_r.
Qed.

End NumFacts.

(** Turn the comparisons of the program into propositions. *)
Ltac compare_as H :=
  first [ apply NumFacts.ltb_lt in H | apply NumFacts.ltb_ge in H
        | apply NumFacts.leb_le in H | apply NumFacts.leb_gt in H ].

(** ** Reasoning about actions *)

Lemma exec_seq {A : Type} (m : M A) (k : M unit) (w : World) :
  exec (m ;; k) w = exec k (exec m w).
Proof. unfold exec, bind. now destruct (m w). Qed.

Lemma exec_read {A : Type} (k : GameState -> M A) (w : World) :
  exec (s <- gameState ;; k s) w = exec (k (game w)) w.
Proof. reflexivity. Qed.

Lemma exec_when (c : bool) (m : M unit) (w : World) :
  exec (when c m) w = if c then exec m w else w.
Proof. now destruct c. Qed.

Lemma exec_assign (f : GameState -> GameState) (w : World) :
  exec (assign f) w
  = mkWorld (f (game w)) (rand w) (timers w) (starts w) (listeners w) (written w).
Proof. reflexivity. Qed.

(** A valid random source is still valid after [k] draws. *)
Lemma valid_rand_tail (g : nat -> Q) (k : nat) :
  valid_rand g -> valid_rand (fun n => g (k + n)%nat).
Proof. intros H n. apply H. Qed.

(** ** resetBall *)

(** The magnitude of a served speed. *)
Lemma serve_magnitude (sign r : Q) :
  sign = 0.5 \/ sign = -0.5 -> 0 <= r -> r < 1 ->
  Qabs (sign * (0.8 + r * 0.4)) == 0.5 * (0.8 + r * 0.4).
Proof.
  intros [-> | ->] H0 H1.
  - apply Qabs_pos. lra.
  - rewrite Qabs_neg by lra. lra.
Qed.

Lemma resetBall_game (w : World) :
  game (exec resetBall w)
  = mkGame (paddleLeft (game w)) (paddleRight (game w))
           (inject_Z (columns (game w) / 2)) (inject_Z (rows (game w) / 2))
           ((if Num.gtb (rand w 0%nat) 0.5 then 0.5 else -0.5) * (0.8 + rand w 1%nat * 0.4))
           ((if Num.gtb (rand w 2%nat) 0.5 then 0.5 else -0.5) * (0.8 + rand w 3%nat * 0.4))
           (scoreLeft (game w)) (scoreRight (game w)) (paused (game w))
           (rows (game w)) (columns (game w)).
Proof.
  unfold resetBall. actions. now rewrite !NumFacts.floor_half.
Qed.

Lemma resetBall_world (w : World) :
  rand (exec resetBall w) = (fun n => rand w (4 + n)%nat)
  /\ timers (exec resetBall w) = timers w
  /\ starts (exec resetBall w) = starts w
  /\ listeners (exec resetBall w) = listeners w
  /\ written (exec resetBall w) = written w.
Proof. unfold resetBall. actions. repeat split. Qed.


Lemma constRand_valid (q : Q) : 0 <= q -> q < 1 -> valid_rand (constRand q).
Proof. intros H0 H1 n. now split. Qed.



(** ** moveAIPaddle *)

Lemma moveAIPaddle_world (w : World) :
  exists p : Q,
    exec moveAIPaddle w
    = mkWorld (set_paddleRight p (game w)) (rand w) (timers w) (starts w)
              (listeners w) (written w).
Proof.
  unfold moveAIPaddle. rewrite exec_read.
  destruct (Num.ltb _ _); [|destruct (Num.gtb _ _)]; actions; eauto.
  exists (paddleRight (game w)). now destruct w as [[] ? ? ? ? ?].
Qed.


(** ** gameLoop *)

Lemma gameLoop_paused (w : World) :
  paused (game w) = true -> exec gameLoop w = exec scheduleGameLoop w.
Proof. intros H. unfold gameLoop. now rewrite exec_read, H. Qed.

Lemma gameLoop_running (w : World) :
  paused (game w) = false ->
  exec gameLoop w
  = exec scheduleGameLoop
      (exec renderGame (exec moveAIPaddle (exec checkScoring (exec moveBall w)))).
Proof.
  intros H. unfold gameLoop, moveBall. rewrite exec_read, H.
  now rewrite !exec_seq.
Qed.

(** The world after the first five steps of a tick. *)
Lemma moveBall_world (w : World) :
  let s := game w in
  exists (vx vy : Q) (k : nat),
    exec moveBall w
    = dropRand k
        (withGame
           (mkGame (paddleLeft s) (paddleRight s) (ballX s + ballSpeedX s)
                   (Qmax 0 (Qmin (inject_Z (rows s) - 1) (ballY s + ballSpeedY s)))
                   vx vy (scoreLeft s) (scoreRight s) (paused s) (rows s) (columns s))
           w).
Proof.
  intros s. unfold moveBall. rewrite !exec_seq.
  unfold updateBallPosition; actions; fold s.
  unfold checkWalls; rewrite exec_read, exec_when; actions.
  destruct (_ || _); actions.
  all: unfold checkLeftPaddle; rewrite exec_read, exec_when; actions.
  all: destruct (_ && _ && _); actions.
  all: unfold checkRightPaddle; rewrite exec_read, exec_when; actions.
  all: destruct (_ && _ && _); actions.
  all: unfold clampBall; actions; do 2 eexists.
  1, 5: exists 2%nat; reflexivity.
  1, 2, 4, 5: exists 1%nat; reflexivity.
  all: exists 0%nat; reflexivity.
Qed.

Lemma clamp_in_bounds (rws : Z) (y : Q) :
  (0 < rws)%Z ->
  0 <= Qmax 0 (Qmin (inject_Z rws - 1) y)
  /\ Qmax 0 (Qmin (inject_Z rws - 1) y) <= inject_Z rws - 1.
Proof.
  intros H.
  assert (H1 : 1 <= inject_Z rws).
  { change 1 with (inject_Z 1). rewrite <- Zle_Qle. lia. }
  revert H1. generalize (inject_Z rws). intros r H1.
  split; minmax; lra.
Qed.

Lemma centre_row_in_bounds (rws : Z) :
  (0 < rws)%Z ->
  0 <= inject_Z (rws / 2) /\ inject_Z (rws / 2) <= inject_Z rws - 1.
Proof.
  intros H.
  assert (E : inject_Z rws - 1 == inject_Z (rws - 1)).
  { unfold Z.sub. rewrite inject_Z_plus. reflexivity. }
  rewrite E. change 0 with (inject_Z 0). rewrite <- !Zle_Qle.
  split; [apply Z.div_pos; lia|].
  assert (rws / 2 < rws)%Z by (apply Z.div_lt; lia). lia.
Qed.

(** What the scoring step does to a world. *)
Lemma checkScoring_world (w : World) :
  let s := game w in
  (ballX s < 0
   /\ exec checkScoring w
      = exec resetBall (withGame (set_scoreRight (scoreRight s + 1)%Z s) w))
  \/ (0 <= ballX s /\ inject_Z (columns s) <= ballX s
      /\ exec checkScoring w
         = exec resetBall (withGame (set_scoreLeft (scoreLeft s + 1)%Z s) w))
  \/ (0 <= ballX s /\ ballX s < inject_Z (columns s)
      /\ exec checkScoring w = w).
Proof.
  intros s. unfold checkScoring. rewrite exec_read. fold s. unfold Num.geb.
  destruct (Num.ltb (ballX s) 0) eqn:E1;
    [|destruct (Num.leb (inject_Z (columns s)) (ballX s)) eqn:E2];
    compare_as E1; try compare_as E2.
  - left. split; [exact E1|]. rewrite exec_seq. reflexivity.
  - right; left. split; [exact E1|]. split; [exact E2|].
    rewrite exec_seq. reflexivity.
  - right; right. split; [exact E1|]. split; [exact E2|]. reflexivity.
Qed.

Lemma renderGame_world (w : World) :
  exec renderGame w
  = mkWorld (game w) (rand w) (timers w) (starts w) (listeners w)
            (frame (game w) :: written w).
Proof. reflexivity. Qed.

(** A tick ends with the right paddle's move, the frame and the timer. *)
Lemma gameLoop_game (w : World) :
  paused (game w) = false ->
  exists p : Q,
    game (exec gameLoop w)
    = set_paddleRight p (game (exec checkScoring (exec moveBall w))).
Proof.
  intros H. rewrite gameLoop_running by exact H.
  destruct (moveAIPaddle_world (exec checkScoring (exec moveBall w))) as [p Hp].
  exists p. rewrite Hp, renderGame_world. reflexivity.
Qed.

Lemma reachable_run (es : list Event) (w : World) :
  reachable w -> reachable (run es w).
Proof.
  revert w. induction es as [|e es IH]; intros w H; [exact H|].
  apply IH. now apply reach_step.
Qed.



(** C3.  On a board with at least one row, a tick that is not paused
    leaves [0 <= ballY <= rows - 1] after its clamp step, and also when
    it ends, whether or not the scoring step has reset the ball. *)
Theorem ballY_stays_in_bounds (w : World) :
  (0 < rows (game w))%Z ->
  paused (game w) = false ->
  ballY_in_bounds (game (exec moveBall w))
  /\ ballY_in_bounds (game (exec gameLoop w)).
Proof.
  intros R P. destruct (gameLoop_game w P) as [p Ep]. rewrite Ep. clear Ep.
  destruct (moveBall_world w) as (vx & vy & k & E). rewrite E. clear E.
  set (v := dropRand k _).
  assert (B : ballY_in_bounds (game v)).
  { unfold ballY_in_bounds. subst v. actions. now apply clamp_in_bounds. }
  split; [exact B|].
  assert (Rv : rows (game v) = rows (game w)) by reflexivity.
  destruct (checkScoring_world v) as [(_ & E)|[(_ & _ & E)|(_ & _ & E)]];
    rewrite E; unfold ballY_in_bounds;
    rewrite ?resetBall_game; actions;
    solve [ exact B | apply centre_row_in_bounds; exact R ].
Qed.

(** Witness of C3: a tick of a game on the default board. *)
Lemma ballY_stays_in_bounds_witness :
  (0 < rows (game playing))%Z
  /\ paused (game playing) = false
  /\ ballY_in_bounds (game (exec gameLoop playing)).
Proof.
  assert (R : (0 < rows (game playing))%Z) by reflexivity.
  assert (P : paused (game playing) = false) by reflexivity.
  split; [exact R|]. split; [exact P|].
  exact (proj2 (ballY_stays_in_bounds playing R P)).
Defined.

(** C4.  In a tick that is not paused, let [x] be [ballX] as the scoring
    step finds it, after integration and collision handling.  If
    [x < 0], [scoreRight] grows by exactly 1, [scoreLeft] is unchanged and
    the ball is reset: the tick ends in the state [resetBall] leaves, at
    the centre of the board, but for the move of the right paddle.
    Otherwise, if [x >= columns], [scoreLeft] grows by exactly 1,
    [scoreRight] is unchanged and the ball is reset in the same way.
    Otherwise both scores are unchanged and the ball is not reset.  For
    positive [columns] the two scoring conditions exclude each other. *)
Theorem scoring_once_per_tick (w : World) :
  paused (game w) = false ->
  let s := game w in
  let v := exec moveBall w in
  let x := ballX (game v) in
  let s' := game (exec gameLoop w) in
  ((x < 0
    /\ scoreRight s' = (scoreRight s + 1)%Z /\ scoreLeft s' = scoreLeft s
    /\ ballX s' = inject_Z (columns s / 2) /\ ballY s' = inject_Z (rows s / 2)
    /\ exists p : Q,
         s' = set_paddleRight p
                (game (exec resetBall
                         (withGame (set_scoreRight (scoreRight (game v) + 1)%Z (game v)) v))))
   \/ (0 <= x /\ inject_Z (columns s) <= x
       /\ scoreLeft s' = (scoreLeft s + 1)%Z /\ scoreRight s' = scoreRight s
       /\ ballX s' = inject_Z (columns s / 2) /\ ballY s' = inject_Z (rows s / 2)
       /\ exists p : Q,
            s' = set_paddleRight p
                   (game (exec resetBall
                            (withGame (set_scoreLeft (scoreLeft (game v) + 1)%Z (game v)) v))))
   \/ (0 <= x /\ x < inject_Z (columns s)
       /\ scoreLeft s' = scoreLeft s /\ scoreRight s' = scoreRight s
       /\ exists p : Q, s' = set_paddleRight p (game v)))
  /\ ((0 < columns s)%Z -> ~ (x < 0 /\ inject_Z (columns s) <= x)).
Proof.
  intros P. cbv zeta. split.
  - destruct (gameLoop_game w P) as [p Ep]. rewrite Ep. clear Ep.
    destruct (moveBall_world w) as (vx & vy & k & E). rewrite E. clear E.
    set (v := dropRand k _).
    change (columns (game w)) with (columns (game v)).
    change (rows (game w)) with (rows (game v)).
    change (scoreLeft (game w)) with (scoreLeft (game v)).
    change (scoreRight (game w)) with (scoreRight (game v)).
    clearbody v.
    destruct (checkScoring_world v) as [(C & E)|[(C1 & C2 & E)|(C1 & C2 & E)]];
      rewrite E; clear E; [left|right; left|right; right].
    + split; [exact C|]. rewrite resetBall_game. actions.
      repeat split. exists p. reflexivity.
    + split; [exact C1|]. split; [exact C2|]. rewrite resetBall_game. actions.
      repeat split. exists p. reflexivity.
    + split; [exact C1|]. split; [exact C2|]. repeat split. exists p. reflexivity.
  - intros C [H1 H2].
    assert (0 < inject_Z (columns (game w))).
    { change 0 with (inject_Z 0). now rewrite <- Zlt_Qlt. }
    lra.
Qed.

(** Witness of C4: a tick of the game on the default board, where nobody
    scores. *)
Lemma scoring_once_per_tick_witness :
  paused (game playing) = false
  /\ (0 < columns (game playing))%Z
  /\ ~ (ballX (game (exec moveBall playing)) < 0
        /\ inject_Z (columns (game playing))
           <= ballX (game (exec moveBall playing))).
Proof.
  assert (P : paused (game playing) = false) by reflexivity.
  assert (C : (0 < columns (game playing))%Z) by reflexivity.
  split; [exact P|]. split; [exact C|].
  exact (proj2 (scoring_once_per_tick playing P) C).
Defined.

(** The integration of the program rounds: at column 79.5 a ball with the
    speed just below 0.5 is stored at column 80, the right edge, where the
    exact sum is below it.  This is why the cases above are on the stored
    [ballX]. *)
Example integration_rounds :
  Double.integrate Double.d79_5 Double.underHalf = Double.d80
  /\ PrimFloat.ltb Double.underHalf Double.d0_5 = true.
Proof. split; vm_compute; reflexivity. Qed.

(** Two ticks of the default board: in midfield the ball moves by its
    speed and nobody scores; behind the left edge the right side scores
    and the ball is back at the centre (40, 12). *)
Example tick_in_midfield :
  let s' := game (exec gameLoop midfield) in
  ballX s' == 40.5 /\ ballY s' == 12.5
  /\ scoreLeft s' = 0%Z /\ scoreRight s' = 0%Z.
Proof. repeat split; vm_compute; reflexivity. Qed.

Example tick_behind_left_edge :
  let s' := game (exec gameLoop behindLeftEdge) in
  scoreRight s' = 1%Z /\ scoreLeft s' = 0%Z
  /\ ballX s' = 40 /\ ballY s' = 12.
Proof. repeat split; vm_compute; reflexivity. Qed.

(** ** The left paddle *)

Lemma Qabs_Qabs (x : Q) : Qabs (Qabs x) == Qabs x.
Proof. apply Qabs_pos, Qabs_nonneg. Qed.






(** ** The callbacks that need something pending *)

Lemma exec_step_start (w : World) :
  exec (step EvStartGame) w
  = match starts w with
    | O => w
    | S n => exec startGame
               (mkWorld (game w) (rand w) (timers w) n (listeners w) (written w))
    end.
Proof. unfold step, exec. destruct (starts w); reflexivity. Qed.

Lemma exec_step_data (key : string) (w : World) :
  exec (step (EvData key)) w
  = match listeners w with
    | O => w
    | S _ => exec (handleData key) w
    end.
Proof. unfold step, exec. destruct (listeners w); reflexivity. Qed.

Lemma exec_step_timer (w : World) :
  exec (step EvTimer) w
  = match timers w with
    | O => w
    | S n => exec gameLoop
               (mkWorld (game w) (rand w) n (starts w) (listeners w) (written w))
    end.
Proof. unfold step, exec. destruct (timers w); reflexivity. Qed.

(** ** Pausing and the tick loops *)

(** What a call of [gameLoop] leaves alone, and the timer it arms. *)
Lemma gameLoop_frame (w : World) :
  same_board (game w) (game (exec gameLoop w))
  /\ timers (exec gameLoop w) = S (timers w)
  /\ starts (exec gameLoop w) = starts w
  /\ listeners (exec gameLoop w) = listeners w.
Proof.
  destruct (paused (game w)) eqn:P.
  - rewrite gameLoop_paused by exact P. unfold same_board. actions. tauto.
  - rewrite gameLoop_running by exact P.
    destruct (moveAIPaddle_world (exec checkScoring (exec moveBall w))) as [p Hp].
    rewrite Hp, renderGame_world. clear Hp.
    destruct (moveBall_world w) as (vx & vy & k & E). rewrite E. clear E.
    set (v := dropRand k _).
    assert (Bv : same_board (game w) (game v)) by (unfold same_board; now actions).
    assert (Tv : timers v = timers w /\ starts v = starts w
                 /\ listeners v = listeners w) by now actions.
    clearbody v.
    destruct (checkScoring_world v) as [(_ & E)|[(_ & _ & E)|(_ & _ & E)]];
      rewrite E; clear E;
      try (match goal with |- context [exec resetBall ?u] =>
             destruct (resetBall_world u) as (_ & T1 & T2 & T3 & _);
             rewrite ?T1, ?T2, ?T3, ?resetBall_game end);
      unfold same_board in *; actions; intuition congruence.
Qed.

(** A timer that fires is armed again: a tick loop never ends. *)
Lemma timer_rearms (w : World) : timers (exec (step EvTimer) w) = timers w.
Proof.
  rewrite exec_step_timer. destruct (timers w) as [|n] eqn:T; [exact T|].
  match goal with |- context [exec gameLoop ?u] =>
    destruct (gameLoop_frame u) as (_ & H & _) end.
  exact H.
Qed.

Lemma handleData_ESC (w : World) :
  exec (handleData ESC) w
  = if paused (game w)
    then exec gameLoop (withGame (set_paused false (game w)) w)
    else withGame (set_paused true (game w)) w.
Proof.
  unfold handleData. rewrite exec_read.
  change (String.eqb ESC ESC) with true. cbv iota.
  rewrite exec_seq, exec_assign, exec_read, exec_when. actions.
  now destruct (paused (game w)).
Qed.

(** C1, what the program does.  An escape chunk in a paused game sets
    [paused] to false and calls [gameLoop] once, which arms one more
    timer; the loop that was polling the pause flag keeps its own.  So
    two consecutive escape chunks restore [paused] but leave one more
    pending [gameLoop] timer than there was, and every pending timer arms
    itself again when it fires: the number of tick loops grows by one
    with every pause and resume. *)
Theorem escape_twice_adds_a_tick_loop (w : World) :
  let w1 := exec (handleData ESC) w in
  let w2 := exec (handleData ESC) w1 in
  paused (game w2) = paused (game w)
  /\ timers w2 = S (timers w)
  /\ (if paused (game w)
      then paused (game w1) = false /\ timers w1 = S (timers w)
      else paused (game w1) = true /\ timers w1 = timers w)
  /\ timers (exec (step EvTimer) w2) = timers w2.
Proof.
  cbv zeta. rewrite timer_rearms. rewrite !handleData_ESC.
  destruct (paused (game w)) eqn:P.
  - set (u := withGame (set_paused false (game w)) w).
    destruct (gameLoop_frame u) as ((_ & Pa & _) & T & _).
    change (paused (game u)) with false in Pa.
    change (timers u) with (timers w) in T.
    rewrite Pa. cbn [game withGame paused set_paused timers].
    rewrite T. auto.
  - set (u := withGame (set_paused true (game w)) w).
    change (paused (game u)) with true. cbv iota.
    set (v := withGame (set_paused false (game u)) u).
    destruct (gameLoop_frame v) as ((_ & Pa & _) & T & _).
    change (paused (game v)) with false in Pa.
    change (timers v) with (timers w) in T.
    rewrite Pa, T. auto.
Qed.

(** C1 on the default board: one tick loop before the two escape chunks,
    two after. *)
Lemma escape_twice_example :
  timers playing = 1%nat
  /\ paused (game playing) = false
  /\ timers (run [EvData ESC; EvData ESC] playing) = 2%nat
  /\ paused (game (run [EvData ESC; EvData ESC] playing)) = false.
Proof. repeat split; vm_compute; reflexivity. Qed.

(** ** The input handler *)

Lemma withGame_same (w : World) (s : GameState) : s = game w -> withGame s w = w.
Proof. intros ->. now destruct w. Qed.

Lemma set_paddleLeft_same (s : GameState) : set_paddleLeft (paddleLeft s) s = s.
Proof. now destruct s. Qed.

(** The handler on a chunk that is not the escape byte. *)
Lemma handleData_key (w : World) (key : string) :
  key <> ESC ->
  exec (handleData key) w
  = if String.eqb key "w" && Num.gtb (paddleLeft (game w)) 0
    then withGame (set_paddleLeft (paddleLeft (game w) - 1) (game w)) w
    else if String.eqb key "s"
            && Num.ltb (paddleLeft (game w)) (inject_Z (rows (game w)) - 6)
         then withGame (set_paddleLeft (paddleLeft (game w) + 1) (game w)) w
         else w.
Proof.
  intros K. apply String.eqb_neq in K.
  unfold handleData. rewrite exec_read, K.
  destruct (_ && _); [reflexivity|]. destruct (_ && _); reflexivity.
Qed.

(** Integers one apart. *)
Lemma int_lt_succ (p q : Q) :
  Num.is_int p -> Num.is_int q -> p < q -> p + 1 <= q.
Proof.
  intros [a Ha] [b Hb] H. rewrite Ha, Hb in *.
  rewrite <- Zlt_Qlt in H. change 1 with (inject_Z 1).
  rewrite <- inject_Z_plus, <- Zle_Qle. lia.
Qed.

Lemma is_int_inject (z : Z) : Num.is_int (inject_Z z).
Proof. now exists z. Qed.

Lemma is_int_plus (p : Q) (z : Z) : Num.is_int p -> Num.is_int (p + inject_Z z).
Proof.
  intros [a Ha]. exists (a + z)%Z. now rewrite Ha, inject_Z_plus.
Qed.

Lemma is_int_minus (p : Q) (z : Z) : Num.is_int p -> Num.is_int (p - inject_Z z).
Proof.
  intros [a Ha]. exists (a - z)%Z. rewrite Ha. unfold Z.sub, Qminus.
  now rewrite inject_Z_plus, inject_Z_opp.
Qed.

(** C7, as amended.  On a chunk other than the lone escape byte the
    handler changes nothing but [paddleLeft].  ['w'] decrements it by 1
    when it is positive and leaves it otherwise; ['s'] increments it by 1
    when it is below [rows - 6] and leaves it otherwise; any other chunk
    leaves the whole world as it is.  When [paddleLeft] is an integer
    within [0, rows - 6] before the chunk, it is within [0, rows - 6]
    after it. *)
Theorem handleData_moves_left_paddle (w : World) (key : string) :
  key <> ESC ->
  let s := game w in
  let p := paddleLeft s in
  let top := inject_Z (rows s) - 6 in
  let w' := exec (handleData key) w in
  exists p' : Q,
    w' = withGame (set_paddleLeft p' s) w
    /\ (key = "w"%string -> (0 < p /\ p' = p - 1) \/ (p <= 0 /\ p' = p))
    /\ (key = "s"%string -> (p < top /\ p' = p + 1) \/ (top <= p /\ p' = p))
    /\ (key <> "w"%string -> key <> "s"%string -> w' = w)
    /\ (Num.is_int p -> 0 <= p -> p <= top -> 0 <= p' /\ p' <= top).
Proof.
  intros K. cbv zeta. rewrite handleData_key by exact K.
  set (s := game w). set (p := paddleLeft s). set (top := inject_Z (rows s) - 6).
  assert (Same : w = withGame (set_paddleLeft p s) w).
  { symmetry. apply withGame_same. apply set_paddleLeft_same. }
  assert (Top : Num.is_int top).
  { apply (is_int_minus _ 6), is_int_inject. }
  unfold Num.gtb.
  destruct (String.eqb key "w") eqn:Kw; [apply String.eqb_eq in Kw|apply String.eqb_neq in Kw].
  - subst key. change (String.eqb "w" "s") with false. cbn [andb].
    destruct (Num.ltb 0 p) eqn:C; compare_as C.
    + exists (p - 1). split; [reflexivity|]. split; [auto|]. split; [discriminate|].
      split; [congruence|]. intros I L U. split; [|lra].
      pose proof (int_lt_succ 0 p (is_int_inject 0) I C). lra.
    + exists p. split; [exact Same|]. split; [auto|]. split; [discriminate|].
      split; [congruence|]. auto.
  - cbn [andb].
    destruct (String.eqb key "s") eqn:Ks; [apply String.eqb_eq in Ks|apply String.eqb_neq in Ks].
    + subst key. cbn [andb].
      destruct (Num.ltb p top) eqn:C; compare_as C.
      * exists (p + 1). split; [reflexivity|]. split; [discriminate|]. split; [auto|].
        split; [congruence|]. intros I L U. split; [lra|].
        now apply int_lt_succ.
      * exists p. split; [exact Same|]. split; [discriminate|]. split; [auto|].
        split; [congruence|]. auto.
    + cbn [andb]. exists p. split; [exact Same|]. split; [congruence|].
      split; [congruence|]. split; [reflexivity|]. auto.
Qed.

(** Witness of C7: ['w'] on the default board moves the paddle from row 9
    to a row that is still on the board. *)
Lemma handleData_moves_left_paddle_witness :
  "w"%string <> ESC
  /\ exists p' : Q,
       exec (handleData "w") playing
       = withGame (set_paddleLeft p' (game playing)) playing
       /\ (0 < paddleLeft (game playing) /\ p' = paddleLeft (game playing) - 1
           \/ paddleLeft (game playing) <= 0 /\ p' = paddleLeft (game playing))
       /\ 0 <= p' /\ p' <= inject_Z (rows (game playing)) - 6.
Proof.
  assert (K : "w"%string <> ESC) by discriminate.
  split; [exact K|].
  destruct (handleData_moves_left_paddle playing "w" K) as (p' & E & W & _ & _ & B).
  exists p'. split; [exact E|]. split; [exact (W eq_refl)|].
  apply B.
  - exists 9%Z. vm_compute. reflexivity.
  - vm_compute. discriminate.
  - vm_compute. discriminate.
Defined.

(** Counterexample to C7: after the terminal has shrunk from 24 to 10
    rows the left paddle is at row 9, and ['s'] neither moves it nor
    brings it back under [rows - 6 = 4]. *)
Lemma handleData_counterexample :
  reachable shrunk
  /\ paddleLeft (game shrunk) = 9
  /\ paddleLeft (game (exec (handleData "s") shrunk)) = 9
  /\ ~ paddleLeft (game (exec (handleData "s") shrunk))
        <= inject_Z (rows (game (exec (handleData "s") shrunk))) - 6.
Proof.
  split; [|split; [|split]].
  - apply reachable_run, reach_init, constRand_valid; lra.
  - vm_compute. reflexivity.
  - vm_compute. reflexivity.
  - intros H. vm_compute in H. now apply H.
Qed.

(** ** Terminal size *)

Lemma resize_game (info : option PtyInfo) (w : World) :
  (exec (onPty info) w = w
   \/ exists i : PtyInfo,
        info = Some i /\ info_rows i <> 0%N /\ info_cols i <> 0%N
        /\ exec (onPty info) w
           = withGame (set_columns (Z.of_N (info_cols i))
                                   (set_rows (Z.of_N (info_rows i)) (game w))) w)
  /\ exec (onWindowChange info) w = exec (onPty info) w.
Proof.
  split; [|reflexivity].
  destruct info as [i|]; [|now left]. unfold onPty, truthy. rewrite exec_when.
  destruct (N.eqb (info_rows i) 0) eqn:R; [now left|].
  destruct (N.eqb (info_cols i) 0) eqn:C; [now left|].
  apply N.eqb_neq in R, C. right. exists i. now repeat split.
Qed.

(** C9.  The pty and window-change handlers change nothing but [rows]
    and [columns].  Nothing is clamped again: when the terminal of the
    game on the default board shrinks to 10 rows, the ball (row 11.5) and
    both paddles (row 9) are left outside the new bounds [rows - 1 = 9]
    and [rows - 6 = 4], where they were inside the old ones; the next
    tick brings the ball back inside, and leaves both paddles outside. *)
Theorem resize_changes_only_the_board :
  (forall (info : option PtyInfo) (w : World),
      unchanged_by_resize (game w) (game (exec (onPty info) w))
      /\ unchanged_by_resize (game w) (game (exec (onWindowChange info) w)))
  /\ (ballY_in_bounds (game playing)
      /\ paddleLeft_in_bounds (game playing)
      /\ paddleRight_in_bounds (game playing))
  /\ (let w' := exec (onWindowChange (Some (mkInfo 10 80))) playing in
      rows (game w') = 10%Z
      /\ ~ ballY (game w') <= inject_Z (rows (game w')) - 1
      /\ ~ paddleLeft (game w') <= inject_Z (rows (game w')) - 6
      /\ ~ paddleRight (game w') <= inject_Z (rows (game w')) - 6)
  /\ (let w'' := exec gameLoop (exec (onWindowChange (Some (mkInfo 10 80))) playing) in
      ballY_in_bounds (game w'')
      /\ ~ paddleLeft (game w'') <= inject_Z (rows (game w'')) - 6
      /\ ~ paddleRight (game w'') <= inject_Z (rows (game w'')) - 6).
Proof.
  split; [|split; [|split]].
  - intros info w. destruct (resize_game info w) as [[E|(i & _ & _ & _ & E)] E'];
      rewrite E', E; unfold unchanged_by_resize; actions; tauto.
  - unfold ballY_in_bounds, paddleLeft_in_bounds, paddleRight_in_bounds.
    repeat split; vm_compute; discriminate.
  - cbv zeta. split; [reflexivity|].
    repeat split; intros H; vm_compute in H; now apply H.
  - cbv zeta. unfold ballY_in_bounds. split; [split; vm_compute; discriminate|].
    split; intros H; vm_compute in H; now apply H.
Qed.

(** ** The left paddle stays on an integer row *)

Lemma startGame_paddleLeft (w : World) :
  paddleLeft (game (exec startGame w)) = inject_Z (rows (game w) / 2) - 3
  /\ rows (game (exec startGame w)) = rows (game w)
  /\ columns (game (exec startGame w)) = columns (game w).
Proof.
  unfold startGame. rewrite !exec_seq, !exec_assign.
  match goal with |- context [exec gameLoop ?u] =>
    destruct (gameLoop_frame u) as ((A & _ & B & C) & _); rewrite A, B, C end.
  clear A B C. actions. rewrite !resetBall_game. actions.
  rewrite NumFacts.floor_half. repeat split.
Qed.

(** What a callback can do to [paddleLeft]: nothing, one row up, one row
    down (the input handler), or the start row of [startGame]. *)
Lemma step_paddleLeft (e : Event) (w : World) :
  let p := paddleLeft (game w) in
  let p' := paddleLeft (game (exec (step e) w)) in
  p' = p \/ p' = p - 1 \/ p' = p + 1 \/ p' = inject_Z (rows (game w) / 2) - 3.
Proof.
  cbv zeta. destruct e as [info|info| | | |key|].
  - cbn [step].
    destruct (resize_game info w) as [[E|(i & _ & _ & _ & E)] _]; rewrite E; now left.
  - cbn [step].
    destruct (resize_game info w) as [[E|(i & _ & _ & _ & E)] E']; rewrite E', E; now left.
  - now left.
  - now left.
  - rewrite exec_step_start. destruct (starts w) as [|n]; [now left|].
    match goal with |- context [exec startGame ?u] =>
      destruct (startGame_paddleLeft u) as (A & _) end.
    rewrite A. now do 3 right.
  - rewrite exec_step_data. destruct (listeners w) as [|n]; [now left|].
    destruct (String.eqb key ESC) eqn:K;
      [apply String.eqb_eq in K|apply String.eqb_neq in K].
    + subst key. rewrite handleData_ESC. destruct (paused (game w)); [|now left].
      match goal with |- context [exec gameLoop ?u] =>
        destruct (gameLoop_frame u) as ((A & _) & _); rewrite A end.
      now left.
    + rewrite handleData_key by exact K.
      destruct (_ && _); [right; now left|].
      destruct (_ && _); [do 2 right; now left|now left].
  - rewrite exec_step_timer. destruct (timers w) as [|n]; [now left|].
    match goal with |- context [exec gameLoop ?u] =>
      destruct (gameLoop_frame u) as ((A & _) & _); rewrite A end.
    now left.
Qed.

(** Every callback keeps [paddleLeft] an integer. *)
Lemma step_paddleLeft_int (e : Event) (w : World) :
  Num.is_int (paddleLeft (game w)) ->
  Num.is_int (paddleLeft (game (exec (step e) w))).
Proof.
  intros I. destruct (step_paddleLeft e w) as [E|[E|[E|E]]]; rewrite E.
  - exact I.
  - apply (is_int_minus _ 1), I.
  - apply (is_int_plus _ 1), I.
  - apply (is_int_minus _ 3), is_int_inject.
Qed.

(** C10.  With [rows] an integer, [paddleLeft] is an integer in every
    world the program can reach, and so are both ends [paddleLeft] and
    [paddleLeft + 5] of the left collision band: [startGame] sets
    [paddleLeft] to [floor(rows / 2) - 3], and a callback does nothing
    else to it than subtract or add 1. *)
Theorem paddleLeft_is_integer (w : World) :
  reachable w ->
  Num.is_int (paddleLeft (game w))
  /\ Num.is_int (paddleLeft (game w) + 5)
  /\ paddleLeft (game (exec startGame w)) = inject_Z (rows (game w) / 2) - 3
  /\ (forall e : Event,
        let p := paddleLeft (game w) in
        let p' := paddleLeft (game (exec (step e) w)) in
        p' = p \/ p' = p - 1 \/ p' = p + 1
        \/ p' = inject_Z (rows (game w) / 2) - 3).
Proof.
  intros R.
  assert (I : Num.is_int (paddleLeft (game w))).
  { induction R as [g _|e w _ IH].
    - exists 0%Z. reflexivity.
    - now apply step_paddleLeft_int. }
  split; [exact I|]. split; [apply (is_int_plus _ 5), I|].
  split; [apply startGame_paddleLeft|]. intros e. apply step_paddleLeft.
Qed.

(** Witness of C10: the game on the default board after ['s'], ['w'],
    ['s'] and a tick. *)
Lemma paddleLeft_is_integer_witness :
  reachable (run [EvData "s"; EvData "w"; EvData "s"; EvTimer] playing)
  /\ Num.is_int
       (paddleLeft (game (run [EvData "s"; EvData "w"; EvData "s"; EvTimer] playing))).
Proof.
  assert (R : reachable (run [EvData "s"; EvData "w"; EvData "s"; EvTimer] playing)).
  { apply reachable_run. unfold playing. apply reachable_run, reach_init.
    intros n. split; vm_compute; [discriminate | reflexivity]. }
  split; [exact R|].
  exact (proj1 (paddleLeft_is_integer _ R)).
Defined.

(** ** The frame *)

Section Frame.

Local Open Scope string_scope.

Lemma append_assoc (a b c : string) : (a ++ b) ++ c = a ++ b ++ c.
Proof. induction a as [|x a IH]; cbn; [reflexivity|now rewrite IH]. Qed.

Lemma lacks_app (c : ascii) (a b : string) :
  lacks c (a ++ b) = lacks c a && lacks c b.
Proof.
  induction a as [|x a IH]; cbn; [reflexivity|].
  now rewrite IH, andb_assoc.
Qed.

Lemma prefix_app (p b : string) : prefix p (p ++ b) = true.
Proof.
  induction p as [|x p IH]; cbn; [now destruct b|].
  destruct (ascii_dec x x); [exact IH|contradiction].
Qed.

Lemma prefix_lead (c x : ascii) (pat s : string) :
  Ascii.eqb x c = false -> prefix (String c pat) (String x s) = false.
Proof.
  intros H. cbn. destruct (ascii_dec c x) as [->|_]; [|reflexivity].
  now rewrite Ascii.eqb_refl in H.
Qed.

Lemma occurrences_lacks (c : ascii) (pat s : string) :
  lacks c s = true -> occurrences (String c pat) s = 0%nat.
Proof.
  induction s as [|x s IH]; [reflexivity|].
  cbn [lacks]. rewrite andb_true_iff, negb_true_iff. intros [H1 H2].
  cbn [occurrences]. now rewrite prefix_lead, IH.
Qed.

Lemma occurrences_skip (c : ascii) (pat a b : string) :
  lacks c a = true ->
  occurrences (String c pat) (a ++ b) = occurrences (String c pat) b.
Proof.
  induction a as [|x a IH]; [reflexivity|].
  cbn [lacks]. rewrite andb_true_iff, negb_true_iff. intros [H1 H2].
  cbn [append occurrences]. now rewrite prefix_lead, IH.
Qed.

(** Decimal digits are not glyph bytes. *)
Lemma lacks_digits (d : Decimal.uint) :
  lacks glyphLead (NilEmpty.string_of_uint d) = true.
Proof. induction d; cbn; trivial. Qed.

Lemma lacks_num (z : Z) : lacks glyphLead (num z) = true.
Proof.
  unfold num, NilZero.string_of_int, NilZero.string_of_uint.
  destruct (Z.to_int z) as [d|d]; destruct d; cbn; try reflexivity;
    apply lacks_digits.
Qed.

Lemma append_nil_r (a : string) : a ++ "" = a.
Proof. induction a as [|x a IH]; cbn; [reflexivity|now rewrite IH]. Qed.

(** A loop that appends to [output]. *)
Lemma fold_append (f : nat -> string) (l : list nat) (acc : string) :
  (forall i, lacks glyphLead (f i) = true) ->
  exists rest : string,
    fold_left (fun output i => output ++ f i) l acc = acc ++ rest
    /\ lacks glyphLead rest = true.
Proof.
  intros H. revert acc. induction l as [|i l IH]; intros acc; cbn [fold_left].
  - exists "". now rewrite append_nil_r.
  - destruct (IH (acc ++ f i)) as (r & E & L). exists (f i ++ r).
    rewrite E, append_assoc, lacks_app, H, L. now split.
Qed.

Lemma lacks_paddleCells (s : GameState) (i : nat) :
  lacks glyphLead (paddleCells s i) = true.
Proof. unfold paddleCells. now rewrite !lacks_app, !lacks_num. Qed.

Lemma lacks_barCell (s : GameState) (i : nat) :
  lacks glyphLead (barCell s i) = true.
Proof. unfold barCell. now rewrite !lacks_app, !lacks_num. Qed.

Lemma lacks_scoreCells (s : GameState) :
  lacks glyphLead (scoreCells s) = true.
Proof. unfold scoreCells. now rewrite !lacks_app, !lacks_num. Qed.

(** C8.  [renderGame] writes [frame] of the game state, a function of
    that state alone, and changes nothing in it.  The frame begins with
    the clear-screen and cursor-home sequences, and the ball glyph occurs
    in it exactly once: right after the sequence that moves the cursor to
    row [floor(ballY) + 1], column [floor(ballX) + 1] and the one that
    selects its colour. *)
Theorem frame_shows_one_ball (w : World) :
  let s := game w in
  written (exec renderGame w) = frame s :: written w
  /\ game (exec renderGame w) = s
  /\ (exists before after : string,
        frame s
        = (ESC ++ "[2J" ++ ESC ++ "[H") ++ before
          ++ (ESC ++ "[" ++ num (Qfloor (ballY s) + 1) ++ ";"
                  ++ num (Qfloor (ballX s) + 1) ++ "H")
          ++ (ESC ++ "[31m") ++ ballGlyph ++ after
        /\ occurrences ballGlyph before = 0%nat
        /\ occurrences ballGlyph after = 0%nat)
  /\ occurrences ballGlyph (frame s) = 1%nat.
Proof.
  cbv zeta. set (s := game w).
  split; [reflexivity|]. split; [reflexivity|].
  unfold frame.
  destruct (fold_append (paddleCells s) (seq 0 6) (ESC ++ "[2J" ++ ESC ++ "[H")
                        (lacks_paddleCells s)) as (r1 & E1 & L1).
  rewrite E1. clear E1.
  destruct (fold_append (barCell s) (seq 0 (Z.to_nat (rows s)))
                        ((ESC ++ "[2J" ++ ESC ++ "[H") ++ r1)
                        (lacks_barCell s)) as (r2 & E2 & L2).
  rewrite E2. clear E2.
  set (cursor := ESC ++ "[" ++ num (Qfloor (ballY s) + 1) ++ ";"
                     ++ num (Qfloor (ballX s) + 1) ++ "H").
  set (after := (ESC ++ "[0m") ++ scoreCells s).
  set (top := ESC ++ "[2J" ++ ESC ++ "[H").
  assert (E : (((top ++ r1) ++ r2) ++ ballCell s) ++ scoreCells s
              = top ++ (r1 ++ r2) ++ cursor ++ (ESC ++ "[31m") ++ ballGlyph ++ after).
  { unfold ballCell, after, cursor. now rewrite !append_assoc. }
  rewrite E. clear E.
  assert (La : lacks glyphLead after = true).
  { unfold after. now rewrite lacks_app, lacks_scoreCells. }
  assert (Lb : lacks glyphLead (r1 ++ r2) = true).
  { now rewrite lacks_app, L1, L2. }
  assert (Lc : lacks glyphLead cursor = true).
  { unfold cursor. now rewrite !lacks_app, !lacks_num. }
  split.
  - exists (r1 ++ r2), after. split; [reflexivity|].
    unfold ballGlyph. now rewrite !occurrences_lacks.
  - assert (E : top ++ (r1 ++ r2) ++ cursor ++ (ESC ++ "[31m") ++ ballGlyph ++ after
                = (top ++ (r1 ++ r2) ++ cursor ++ ESC ++ "[31m") ++ ballGlyph ++ after)
      by now rewrite !append_assoc.
    rewrite E. clear E. unfold ballGlyph at 1. rewrite occurrences_skip.
    + fold ballGlyph. cbn [append occurrences ballGlyph].
      change (String glyphLead (String (ascii_of_nat 151) (String (ascii_of_nat 143) after)))
        with (ballGlyph ++ after).
      rewrite prefix_app. unfold ballGlyph.
      rewrite occurrences_lacks; [reflexivity|].
      cbn [lacks]. now rewrite La.
    + rewrite !lacks_app, L1, L2, Lc. reflexivity.
Qed.

End Frame.

(** ** What holds in every reachable world *)

(** A call of [gameLoop] leaves a random source that is still valid. *)
Lemma gameLoop_valid_rand (w : World) :
  valid_rand (rand w) -> valid_rand (rand (exec gameLoop w)).
Proof.
  intros V. destruct (paused (game w)) eqn:P.
  - rewrite gameLoop_paused by exact P. exact V.
  - rewrite gameLoop_running by exact P.
    destruct (moveAIPaddle_world (exec checkScoring (exec moveBall w))) as [p Hp].
    rewrite Hp, renderGame_world. clear Hp. actions.
    destruct (moveBall_world w) as (vx & vy & k & E). rewrite E. clear E.
    set (v := dropRand k _).
    assert (Vv : valid_rand (rand v)) by (subst v; apply valid_rand_tail, V).
    clearbody v.
    destruct (checkScoring_world v) as [(_ & E)|[(_ & _ & E)|(_ & _ & E)]];
      rewrite E; clear E; trivial;
      match goal with |- context [exec resetBall ?u] =>
        destruct (resetBall_world u) as (R & _); rewrite R end;
      apply (valid_rand_tail _ 4), Vv.
Qed.

Lemma step_invariant (e : Event) (w : World) :
  valid_rand (rand w) /\ (0 < rows (game w))%Z /\ (0 < columns (game w))%Z ->
  valid_rand (rand (exec (step e) w))
  /\ (0 < rows (game (exec (step e) w)))%Z
  /\ (0 < columns (game (exec (step e) w)))%Z.
Proof.
  intros (V & R & C). destruct e as [info|info| | | |key|].
  - cbn [step]. destruct (resize_game info w) as [[E|(i & _ & Hr & Hc & E)] _];
      rewrite E; actions; (split; [exact V|split]); first [assumption | lia].
  - cbn [step]. destruct (resize_game info w) as [[E|(i & _ & Hr & Hc & E)] E'];
      rewrite E', E; actions; (split; [exact V|split]); first [assumption | lia].
  - tauto.
  - tauto.
  - rewrite exec_step_start. destruct (starts w) as [|n]; [tauto|].
    match goal with |- context [exec startGame ?u] =>
      destruct (startGame_paddleLeft u) as (_ & A & B); rewrite A, B end.
    split; [|now split].
    unfold startGame. rewrite !exec_seq, !exec_assign.
    apply gameLoop_valid_rand. actions.
    match goal with |- context [exec resetBall ?u] =>
      destruct (resetBall_world u) as (E & _); rewrite E end.
    apply (valid_rand_tail _ 4), V.
  - rewrite exec_step_data. destruct (listeners w) as [|n]; [tauto|].
    destruct (String.eqb key ESC) eqn:K;
      [apply String.eqb_eq in K|apply String.eqb_neq in K].
    + subst key. rewrite handleData_ESC.
      destruct (paused (game w)); [|tauto].
      match goal with |- context [exec gameLoop ?u] =>
        destruct (gameLoop_frame u) as ((_ & _ & A & B) & _); rewrite A, B;
        split; [apply gameLoop_valid_rand, V|now split] end.
    + rewrite handleData_key by exact K.
      destruct (_ && _); [tauto|].
      destruct (_ && _); tauto.
  - rewrite exec_step_timer. destruct (timers w) as [|n]; [tauto|].
    match goal with |- context [exec gameLoop ?u] =>
      destruct (gameLoop_frame u) as ((_ & _ & A & B) & _); rewrite A, B;
      split; [apply gameLoop_valid_rand, V|now split] end.
Qed.

(** In every reachable world the random source is valid and the board
    has at least one row and one column: the size handlers ignore a
    size with a zero. *)
Lemma reachable_invariant (w : World) :
  reachable w ->
  valid_rand (rand w) /\ (0 < rows (game w))%Z /\ (0 < columns (game w))%Z.
Proof.
  induction 1 as [g V|e w _ IH].
  - split; [exact V|]. split; reflexivity.
  - now apply step_invariant.
Qed.

(** * Further properties *)

(** ** What a tick does, case by case *)

(** The first five steps of a tick keep the magnitude of the horizontal
    speed: a paddle only changes its sign. *)
Lemma moveBall_world_speed (w : World) :
  let s := game w in
  exists (vx vy : Q) (k : nat),
    exec moveBall w
    = dropRand k
        (withGame
           (mkGame (paddleLeft s) (paddleRight s) (ballX s + ballSpeedX s)
                   (Qmax 0 (Qmin (inject_Z (rows s) - 1) (ballY s + ballSpeedY s)))
                   vx vy (scoreLeft s) (scoreRight s) (paused s) (rows s) (columns s))
           w)
    /\ Qabs vx == Qabs (ballSpeedX s).
Proof.
  intros s. unfold moveBall. rewrite !exec_seq.
  unfold updateBallPosition; actions; fold s.
  unfold checkWalls; rewrite exec_read, exec_when; actions.
  destruct (_ || _); actions.
  all: unfold checkLeftPaddle; rewrite exec_read, exec_when; actions.
  all: destruct (_ && _ && _); actions.
  all: unfold checkRightPaddle; rewrite exec_read, exec_when; actions.
  all: destruct (_ && _ && _); actions.
  all: unfold clampBall; actions; do 2 eexists.
  1, 5: exists 2%nat; split; [reflexivity|].
  3, 4, 6, 7: exists 1%nat; split; [reflexivity|].
  7, 8: exists 0%nat; split; [reflexivity|].
  all: actions; rewrite ?Qabs_opp, ?Qabs_Qabs; reflexivity.
Qed.

(** The three ways a tick that is not paused can end: the right side
    scores, the left side scores, or the ball is in play.  [p] is where
    [moveAIPaddle] leaves the right paddle and [k] the number of random
    values the paddles have drawn. *)
Lemma gameLoop_cases (w : World) :
  paused (game w) = false ->
  let s := game w in
  let x := ballX s + ballSpeedX s in
  let y := Qmax 0 (Qmin (inject_Z (rows s) - 1) (ballY s + ballSpeedY s)) in
  exists (vx vy p : Q) (k : nat),
    Qabs vx == Qabs (ballSpeedX s)
    /\ ((x < 0
         /\ game (exec gameLoop w)
            = mkGame (paddleLeft s) p
                     (inject_Z (columns s / 2)) (inject_Z (rows s / 2))
                     (serve (rand w (k + 0)) (rand w (k + 1)))
                     (serve (rand w (k + 2)) (rand w (k + 3)))
                     (scoreLeft s) (scoreRight s + 1)%Z
                     (paused s) (rows s) (columns s))
        \/ (0 <= x /\ inject_Z (columns s) <= x
            /\ game (exec gameLoop w)
               = mkGame (paddleLeft s) p
                        (inject_Z (columns s / 2)) (inject_Z (rows s / 2))
                        (serve (rand w (k + 0)) (rand w (k + 1)))
                        (serve (rand w (k + 2)) (rand w (k + 3)))
                        (scoreLeft s + 1)%Z (scoreRight s)
                        (paused s) (rows s) (columns s))
        \/ (0 <= x /\ x < inject_Z (columns s)
            /\ game (exec gameLoop w)
               = mkGame (paddleLeft s) p x y vx vy
                        (scoreLeft s) (scoreRight s)
                        (paused s) (rows s) (columns s))).
Proof.
  intros P. cbv zeta.
  destruct (gameLoop_game w P) as [p Ep]. rewrite Ep. clear Ep.
  destruct (moveBall_world_speed w) as (vx & vy & k & E & A). rewrite E. clear E.
  exists vx, vy, p, k. split; [exact A|].
  set (v := dropRand k _).
  destruct (checkScoring_world v) as [(C & E)|[(C1 & C2 & E)|(C1 & C2 & E)]];
    rewrite E; clear E; [left|right; left|right; right].
  - split; [exact C|]. rewrite resetBall_game. reflexivity.
  - split; [exact C1|]. split; [exact C2|]. rewrite resetBall_game. reflexivity.
  - split; [exact C1|]. split; [exact C2|]. reflexivity.
Qed.

(** ** The ball is drawn on the board *)

Lemma floor_cell_lt (x : Q) (n : Z) :
  0 <= x -> x < inject_Z n -> (1 <= Qfloor x + 1 <= n)%Z.
Proof.
  intros L U.
  pose proof (Qfloor_resp_le 0 x L) as F. change (Qfloor 0) with 0%Z in F.
  pose proof (Qfloor_le x) as G.
  assert (H : inject_Z (Qfloor x) < inject_Z n) by lra.
  rewrite <- Zlt_Qlt in H. lia.
Qed.

Lemma floor_cell_le (y : Q) (n : Z) :
  0 <= y -> y <= inject_Z n - 1 -> (1 <= Qfloor y + 1 <= n)%Z.
Proof.
  intros L U.
  pose proof (Qfloor_resp_le 0 y L) as F. change (Qfloor 0) with 0%Z in F.
  assert (E : inject_Z n - 1 == inject_Z (n - 1)).
  { unfold Z.sub. rewrite inject_Z_plus. reflexivity. }
  rewrite E in U. apply Qfloor_resp_le in U. rewrite Qfloor_Z in U. lia.
Qed.

Lemma centre_column_in_bounds (cols : Z) :
  (0 < cols)%Z ->
  0 <= inject_Z (cols / 2) /\ inject_Z (cols / 2) < inject_Z cols.
Proof.
  intros H. change 0 with (inject_Z 0). rewrite <- Zle_Qle, <- Zlt_Qlt.
  split; [apply Z.div_pos; lia|apply Z.div_lt; lia].
Qed.

(** X1.  On a board with at least one row and one column, a tick that is
    not paused ends with [0 <= ballX < columns]: a ball that has left the
    board has been served again from the centre.  So the cell
    [(floor(ballY) + 1, floor(ballX) + 1)] where the frame of this tick
    draws the ball lies in rows [1 .. rows] and columns [1 .. columns]. *)
Theorem tick_leaves_ball_on_board (w : World) :
  (0 < rows (game w))%Z ->
  (0 < columns (game w))%Z ->
  paused (game w) = false ->
  let s' := game (exec gameLoop w) in
  (0 <= ballX s' /\ ballX s' < inject_Z (columns s'))
  /\ (1 <= Qfloor (ballY s') + 1 <= rows s')%Z
  /\ (1 <= Qfloor (ballX s') + 1 <= columns s')%Z.
Proof.
  intros R C P. cbv zeta.
  destruct (centre_column_in_bounds _ C) as [C0 C1].
  destruct (centre_row_in_bounds _ R) as [R0 R1].
  destruct (gameLoop_cases w P) as (vx & vy & p & k & _ & [(X & E)|[(X1 & X2 & E)|(X1 & X2 & E)]]);
    rewrite E; cbn [ballX ballY rows columns].
  - split; [now split|]. split; [now apply floor_cell_le|now apply floor_cell_lt].
  - split; [now split|]. split; [now apply floor_cell_le|now apply floor_cell_lt].
  - destruct (clamp_in_bounds (rows (game w))
                (ballY (game w) + ballSpeedY (game w)) R) as [Y0 Y1].
    split; [now split|]. split; [now apply floor_cell_le|now apply floor_cell_lt].
Qed.

(** Witness of X1: a tick of the game on the default board. *)
Lemma tick_leaves_ball_on_board_witness :
  (0 < rows (game playing))%Z
  /\ (0 < columns (game playing))%Z
  /\ paused (game playing) = false
  /\ (1 <= Qfloor (ballX (game (exec gameLoop playing))) + 1
       <= columns (game (exec gameLoop playing)))%Z.
Proof.
  assert (R : (0 < rows (game playing))%Z) by reflexivity.
  assert (C : (0 < columns (game playing))%Z) by reflexivity.
  assert (P : paused (game playing) = false) by reflexivity.
  split; [exact R|]. split; [exact C|]. split; [exact P|].
  exact (proj2 (proj2 (tick_leaves_ball_on_board playing R C P))).
Defined.

(** ** The horizontal speed *)

Lemma serve_in_range (r1 r2 : Q) :
  0 <= r2 -> r2 < 1 ->
  0.4 <= Qabs (serve r1 r2) /\ Qabs (serve r1 r2) <= 0.6.
Proof.
  intros L U. unfold serve. rewrite serve_magnitude; trivial.
  - split; lra.
  - destruct (Num.gtb r1 0.5); auto.
Qed.

(** A call of [gameLoop] keeps the horizontal speed in the range of a
    serve. *)
Lemma gameLoop_speedX (w : World) :
  valid_rand (rand w) ->
  speedX_in_range (game w) -> speedX_in_range (game (exec gameLoop w)).
Proof.
  intros V S. destruct (paused (game w)) eqn:P.
  - rewrite gameLoop_paused by exact P. exact S.
  - unfold speedX_in_range in *.
    destruct (gameLoop_cases w P) as (vx & vy & p & k & A & [(_ & E)|[(_ & _ & E)|(_ & _ & E)]]);
      rewrite E; cbn [ballSpeedX].
    + destruct (V (k + 1)%nat). now apply serve_in_range.
    + destruct (V (k + 1)%nat). now apply serve_in_range.
    + now rewrite A.
Qed.

Lemma step_speedX (e : Event) (w : World) :
  valid_rand (rand w) ->
  speedX_in_range (game w) -> speedX_in_range (game (exec (step e) w)).
Proof.
  intros V S. destruct e as [info|info| | | |key|].
  - cbn [step].
    destruct (resize_game info w) as [[E|(i & _ & _ & _ & E)] _]; rewrite E; exact S.
  - cbn [step].
    destruct (resize_game info w) as [[E|(i & _ & _ & _ & E)] E']; rewrite E', E; exact S.
  - exact S.
  - exact S.
  - rewrite exec_step_start. destruct (starts w) as [|n]; [exact S|].
    unfold startGame. rewrite !exec_seq, !exec_assign.
    apply gameLoop_speedX.
    + actions.
      match goal with |- context [exec resetBall ?u] =>
        destruct (resetBall_world u) as (E & _); rewrite E end.
      apply (valid_rand_tail _ 4), V.
    + actions. rewrite resetBall_game. unfold speedX_in_range. cbn [ballSpeedX].
      destruct (V 1%nat). now apply (serve_in_range (rand w 0%nat)).
  - rewrite exec_step_data. destruct (listeners w) as [|n]; [exact S|].
    destruct (String.eqb key ESC) eqn:K;
      [apply String.eqb_eq in K|apply String.eqb_neq in K].
    + subst key. rewrite handleData_ESC. destruct (paused (game w)); [|exact S].
      apply gameLoop_speedX; [exact V|exact S].
    + rewrite handleData_key by exact K.
      destruct (_ && _); [exact S|]. destruct (_ && _); exact S.
  - rewrite exec_step_timer. destruct (timers w) as [|n]; [exact S|].
    apply gameLoop_speedX; [exact V|exact S].
Qed.

(** X2.  In every world the program can reach, the magnitude of
    [ballSpeedX] lies in [0.4, 0.6], both ends included: it starts at 0.5,
    a serve draws it from that range and a paddle only changes its sign.
    So the ball always moves sideways, by less than one column per
    tick. *)
Theorem ballSpeedX_stays_in_range (w : World) :
  reachable w ->
  0.4 <= Qabs (ballSpeedX (game w))
  /\ Qabs (ballSpeedX (game w)) <= 0.6
  /\ ~ ballSpeedX (game w) == 0.
Proof.
  intros R.
  assert (S : speedX_in_range (game w)).
  { induction R as [g V|e w R IH].
    - split; vm_compute; discriminate.
    - apply step_speedX; [apply reachable_invariant, R|exact IH]. }
  destruct S as [L U]. split; [exact L|]. split; [exact U|].
  intros Z. rewrite Z in L. revert L. vm_compute. auto.
Qed.

(** Witness of X2: the game on the default board after three ticks. *)
Lemma ballSpeedX_stays_in_range_witness :
  reachable (run [EvTimer; EvTimer; EvTimer] playing)
  /\ 0.4 <= Qabs (ballSpeedX (game (run [EvTimer; EvTimer; EvTimer] playing))).
Proof.
  assert (R : reachable (run [EvTimer; EvTimer; EvTimer] playing)).
  { apply reachable_run. unfold playing. apply reachable_run, reach_init.
    intros n. split; vm_compute; [discriminate | reflexivity]. }
  split; [exact R|].
  exact (proj1 (ballSpeedX_stays_in_range _ R)).
Defined.

(** ** Pausing *)

Lemma paused_timer (w : World) :
  paused (game w) = true -> exec (step EvTimer) w = w.
Proof.
  intros P. rewrite exec_step_timer. destruct (timers w) as [|n] eqn:T; [reflexivity|].
  rewrite gameLoop_paused by exact P.
  destruct w as [g r t st l o]. cbn in T. subst t. reflexivity.
Qed.

(** X3.  While the game is paused, the timers of the tick loops change
    nothing at all, however many of them fire: no move, no frame, no
    random draw, and as many pending timers as before.  The input handler
    does not look at [paused]: ['w'] still moves a left paddle that is
    not at the top ([paddleLeft > 0]) up by one row. *)
Theorem pause_freezes_the_ticks (w : World) (n : nat) :
  paused (game w) = true ->
  run (repeat EvTimer n) w = w
  /\ (Num.gtb (paddleLeft (game w)) 0 = true ->
      paddleLeft (game (exec (handleData "w") w)) = paddleLeft (game w) - 1
      /\ paused (game (exec (handleData "w") w)) = true).
Proof.
  intros P. split.
  - induction n as [|n IH]; [reflexivity|].
    cbn [repeat run fold_left]. rewrite paused_timer by exact P. exact IH.
  - intros G. rewrite handleData_key by discriminate.
    change (String.eqb "w" "w") with true. cbn [andb]. rewrite G.
    split; [reflexivity|exact P].
Qed.

(** Witness of X3: the game on the default board, paused by an escape
    byte, then five timers and a ['w']. *)
Lemma pause_freezes_the_ticks_witness :
  paused (game (exec (handleData ESC) playing)) = true
  /\ run (repeat EvTimer 5) (exec (handleData ESC) playing)
     = exec (handleData ESC) playing
  /\ paddleLeft (game (exec (handleData "w") (exec (handleData ESC) playing)))
     = paddleLeft (game (exec (handleData ESC) playing)) - 1.
Proof.
  assert (P : paused (game (exec (handleData ESC) playing)) = true) by reflexivity.
  split; [exact P|].
  destruct (pause_freezes_the_ticks (exec (handleData ESC) playing) 5 P) as [F K].
  split; [exact F|]. apply K. reflexivity.
Defined.

(** ** The right paddle follows the ball *)


(** ** Frames *)

Lemma gameLoop_written (w : World) :
  written (exec gameLoop w)
  = if paused (game w) then written w
    else frame (game (exec gameLoop w)) :: written w.
Proof.
  destruct (paused (game w)) eqn:P.
  - rewrite gameLoop_paused by exact P. reflexivity.
  - rewrite gameLoop_running by exact P.
    set (v := exec checkScoring (exec moveBall w)).
    assert (Wv : written v = written w).
    { subst v. destruct (moveBall_world w) as (vx & vy & k & E). rewrite E. clear E.
      set (u := dropRand k _).
      destruct (checkScoring_world u) as [(_ & E)|[(_ & _ & E)|(_ & _ & E)]];
        rewrite E; clear E; try reflexivity;
        match goal with |- context [exec resetBall ?u] =>
          destruct (resetBall_world u) as (_ & _ & _ & _ & T); rewrite T end;
        reflexivity. }
    destruct (moveAIPaddle_world v) as [p Hp]. rewrite Hp, renderGame_world.
    actions. now rewrite Wv.
Qed.

(** X5.  Frames come from ticks.  A call of [gameLoop] that is not paused
    writes exactly one frame, the frame of the state in which the tick
    ends (after the score and the move of the right paddle); a paused call
    writes nothing.  The input handler writes nothing either, except that
    the escape byte that resumes a paused game draws a frame at once. *)
Theorem frames_come_from_ticks (w : World) (key : string) :
  written (exec gameLoop w)
  = (if paused (game w) then written w
     else frame (game (exec gameLoop w)) :: written w)
  /\ written (exec (handleData key) w)
     = (if String.eqb key ESC && paused (game w)
        then frame (game (exec (handleData key) w)) :: written w
        else written w).
Proof.
  split; [apply gameLoop_written|].
  destruct (String.eqb key ESC) eqn:K;
    [apply String.eqb_eq in K|apply String.eqb_neq in K].
  - subst key. rewrite handleData_ESC. cbn [andb].
    destruct (paused (game w)); [|reflexivity].
    rewrite gameLoop_written. reflexivity.
  - rewrite handleData_key by exact K. cbn [andb].
    destruct (_ && _); [reflexivity|]. destruct (_ && _); reflexivity.
Qed.

(** ** Scores *)

Lemma gameLoop_scores (w : World) :
  let s := game w in
  let s' := game (exec gameLoop w) in
  (scoreLeft s' = scoreLeft s /\ scoreRight s' = scoreRight s)
  \/ (scoreLeft s' = (scoreLeft s + 1)%Z /\ scoreRight s' = scoreRight s)
  \/ (scoreLeft s' = scoreLeft s /\ scoreRight s' = (scoreRight s + 1)%Z).
Proof.
  cbv zeta. destruct (paused (game w)) eqn:P.
  - rewrite gameLoop_paused by exact P. now left.
  - destruct (gameLoop_cases w P)
      as (vx & vy & p & k & _ & [(_ & E)|[(_ & _ & E)|(_ & _ & E)]]);
      rewrite E; cbn [scoreLeft scoreRight]; auto.
Qed.

Lemma startGame_world (w : World) :
  exec startGame w
  = exec gameLoop
      (exec onData
         (exec resetBall
            (withGame
               (set_paddleRight (Num.floor (inject_Z (rows (game w)) / 2) - 3)
                  (set_paddleLeft (Num.floor (inject_Z (rows (game w)) / 2) - 3)
                     (game w)))
               w))).
Proof. unfold startGame. rewrite !exec_seq, !exec_assign. reflexivity. Qed.

(** What a callback can do to the scores. *)
Lemma step_scores (e : Event) (w : World) :
  let s := game w in
  let s' := game (exec (step e) w) in
  (scoreLeft s' = scoreLeft s /\ scoreRight s' = scoreRight s)
  \/ (scoreLeft s' = (scoreLeft s + 1)%Z /\ scoreRight s' = scoreRight s)
  \/ (scoreLeft s' = scoreLeft s /\ scoreRight s' = (scoreRight s + 1)%Z).
Proof.
  cbv zeta. destruct e as [info|info| | | |key|].
  - cbn [step].
    destruct (resize_game info w) as [[E|(i & _ & _ & _ & E)] _]; rewrite E; now left.
  - cbn [step].
    destruct (resize_game info w) as [[E|(i & _ & _ & _ & E)] E']; rewrite E', E; now left.
  - now left.
  - now left.
  - rewrite exec_step_start. destruct (starts w) as [|n]; [now left|].
    rewrite startGame_world.
    match goal with |- context [exec gameLoop ?u] =>
      pose proof (gameLoop_scores u) as G; cbv zeta in G;
      assert (L : scoreLeft (game u) = scoreLeft (game w))
        by (actions; now rewrite resetBall_game);
      assert (R : scoreRight (game u) = scoreRight (game w))
        by (actions; now rewrite resetBall_game)
    end.
    rewrite L, R in G. exact G.
  - rewrite exec_step_data. destruct (listeners w) as [|n]; [now left|].
    destruct (String.eqb key ESC) eqn:K;
      [apply String.eqb_eq in K|apply String.eqb_neq in K].
    + subst key. rewrite handleData_ESC. destruct (paused (game w)); [|now left].
      apply (gameLoop_scores (withGame (set_paused false (game w)) w)).
    + rewrite handleData_key by exact K.
      destruct (_ && _); [now left|]. destruct (_ && _); now left.
  - rewrite exec_step_timer. destruct (timers w) as [|n]; [now left|].
    match goal with |- context [exec gameLoop ?u] => apply (gameLoop_scores u) end.
Qed.

(** X6.  Scores only count up.  In every reachable world both scores are
    non-negative, and a callback either leaves both alone or adds exactly
    1 to exactly one of them; [startGame] for a further session serves a
    new ball but does not reset the scores. *)
Theorem scores_only_count_up (w : World) :
  reachable w ->
  (0 <= scoreLeft (game w))%Z /\ (0 <= scoreRight (game w))%Z
  /\ (forall e : Event,
        let s := game w in
        let s' := game (exec (step e) w) in
        (scoreLeft s' = scoreLeft s /\ scoreRight s' = scoreRight s)
        \/ (scoreLeft s' = (scoreLeft s + 1)%Z /\ scoreRight s' = scoreRight s)
        \/ (scoreLeft s' = scoreLeft s /\ scoreRight s' = (scoreRight s + 1)%Z)).
Proof.
  intros R.
  assert (N : (0 <= scoreLeft (game w))%Z /\ (0 <= scoreRight (game w))%Z).
  { induction R as [g _|e w _ IH]; [split; discriminate|].
    destruct (step_scores e w) as [[A B]|[[A B]|[A B]]]; rewrite A, B; lia. }
  destruct N as [NL NR]. split; [exact NL|]. split; [exact NR|].
  intros e. apply step_scores.
Qed.

(** Witness of X6: the game on the default board and its next tick. *)
Lemma scores_only_count_up_witness :
  reachable playing
  /\ (0 <= scoreLeft (game playing))%Z
  /\ (0 <= scoreRight (game (exec (step EvTimer) playing)))%Z.
Proof.
  assert (R : reachable playing).
  { unfold playing. apply reachable_run, reach_init.
    intros n. split; vm_compute; [discriminate | reflexivity]. }
  split; [exact R|]. split; [exact (proj1 (scores_only_count_up playing R))|].
  exact (proj1 (proj2 (scores_only_count_up _ (reach_step EvTimer playing R)))).
Defined.

(** ** Tick loops and listeners *)

(** What a callback can do to the pending timers and the listeners: leave
    them, start one more loop for a session that listens already (an
    escape byte that resumes), or start a session with its loop. *)
Lemma step_counters (e : Event) (w : World) :
  let w' := exec (step e) w in
  (timers w' = timers w /\ listeners w' = listeners w)
  \/ (timers w' = S (timers w) /\ listeners w' = listeners w
      /\ listeners w <> 0%nat)
  \/ (timers w' = S (timers w) /\ listeners w' = S (listeners w)).
Proof.
  cbv zeta. destruct e as [info|info| | | |key|].
  - cbn [step].
    destruct (resize_game info w) as [[E|(i & _ & _ & _ & E)] _]; rewrite E; now left.
  - cbn [step].
    destruct (resize_game info w) as [[E|(i & _ & _ & _ & E)] E']; rewrite E', E; now left.
  - now left.
  - now left.
  - rewrite exec_step_start. destruct (starts w) as [|n]; [now left|].
    rewrite startGame_world.
    match goal with |- context [exec gameLoop ?u] =>
      destruct (gameLoop_frame u) as (_ & T & _ & L); rewrite T, L;
      assert (Tu : timers u = timers w)
        by (actions;
            match goal with |- context [exec resetBall ?v] =>
              destruct (resetBall_world v) as (_ & A & _) end;
            exact A);
      assert (Lu : listeners u = S (listeners w))
        by (actions;
            match goal with |- context [exec resetBall ?v] =>
              destruct (resetBall_world v) as (_ & _ & _ & A & _) end;
            now rewrite A)
    end.
    rewrite Tu, Lu. now right; right.
  - rewrite exec_step_data. destruct (listeners w) as [|n] eqn:Ls; [now left|].
    destruct (String.eqb key ESC) eqn:K;
      [apply String.eqb_eq in K|apply String.eqb_neq in K].
    + subst key. rewrite handleData_ESC. destruct (paused (game w)).
      * destruct (gameLoop_frame (withGame (set_paused false (game w)) w))
          as (_ & T & _ & L).
        rewrite T, L. cbn [withGame timers listeners]. rewrite Ls.
        right; left. repeat split. discriminate.
      * left. cbn [withGame timers listeners]. now rewrite Ls.
    + rewrite handleData_key by exact K.
      destruct (_ && _); [left; cbn [withGame timers listeners]; now rewrite Ls|].
      destruct (_ && _); left; cbn [withGame timers listeners]; now rewrite Ls.
  - rewrite exec_step_timer. destruct (timers w) as [|n] eqn:T; [now left|].
    match goal with |- context [exec gameLoop ?u] =>
      destruct (gameLoop_frame u) as (_ & A & _ & L); rewrite A, L end.
    now left.
Qed.

(** X7.  No callback ever stops a tick loop: a callback leaves the number
    of pending [gameLoop] timers as it is or adds one, and never removes a
    listener.  In every reachable world each session that listens has a
    loop of its own ([listeners <= timers]). *)
Theorem tick_loops_never_stop (w : World) :
  reachable w ->
  (listeners w <= timers w)%nat
  /\ (forall e : Event,
        (timers w <= timers (exec (step e) w) <= S (timers w))%nat
        /\ (listeners w <= listeners (exec (step e) w))%nat).
Proof.
  intros R. split.
  - induction R as [g _|e w _ IH]; [cbn; lia|].
    destruct (step_counters e w) as [[A B]|[(A & B & _)|[A B]]]; rewrite A, B; lia.
  - intros e.
    destruct (step_counters e w) as [[A B]|[(A & B & _)|[A B]]]; rewrite A, B; lia.
Qed.

(** Witness of X7: the game on the default board, paused and resumed. *)
Lemma tick_loops_never_stop_witness :
  reachable (run [EvData ESC; EvData ESC] playing)
  /\ (listeners (run [EvData ESC; EvData ESC] playing)
      <= timers (run [EvData ESC; EvData ESC] playing))%nat.
Proof.
  assert (R : reachable (run [EvData ESC; EvData ESC] playing)).
  { apply reachable_run. unfold playing. apply reachable_run, reach_init.
    intros n. split; vm_compute; [discriminate | reflexivity]. }
  split; [exact R|].
  exact (proj1 (tick_loops_never_stop _ R)).
Defined.

(** ** Before the game starts *)

(** X8.  Until the first [startGame] has run (no stream has a listener
    yet) there is no tick loop and nothing moves: whatever sizes and shell
    requests have arrived, no [gameLoop] timer is pending and the ball,
    the paddles, the scores and the pause flag are as the program
    initialised them; only [rows] and [columns] may differ. *)
Theorem nothing_moves_before_startGame (w : World) :
  reachable w ->
  listeners w = 0%nat ->
  timers w = 0%nat
  /\ unchanged_by_resize initialGame (game w).
Proof.
  intros R L.
  induction R as [g _|e w R IH].
    - split; [reflexivity|]. unfold unchanged_by_resize. tauto.
    - destruct (step_counters e w) as [[A B]|[(A & B & C)|[A B]]];
        [|congruence|congruence].
      rewrite A. rewrite B in L. destruct (IH L) as [T U]. split; [exact T|].
      destruct e as [info|info| | | |key|].
      + cbn [step].
        destruct (resize_game info w) as [[E|(i & _ & _ & _ & E)] _]; rewrite E;
          exact U.
      + cbn [step].
        destruct (resize_game info w) as [[E|(i & _ & _ & _ & E)] E'];
          rewrite E', E; exact U.
      + exact U.
      + exact U.
      + rewrite exec_step_start in *. destruct (starts w) as [|n]; [exact U|].
        rewrite startGame_world in A.
        match type of A with context [exec gameLoop ?u] =>
          destruct (gameLoop_frame u) as (_ & G & _) end.
        rewrite G in A. lia.
      + rewrite exec_step_data, L. exact U.
      + rewrite exec_step_timer, T. exact U.
Qed.

(** Witness of X8: a size, a shell request and two chunks, before the
    start timer fires. *)
Lemma nothing_moves_before_startGame_witness :
  reachable (run [EvPty (Some (mkInfo 30 100)); EvShell; EvData "w"; EvData ESC]
                 (initialWorld (constRand (1 # 2))))
  /\ listeners (run [EvPty (Some (mkInfo 30 100)); EvShell; EvData "w"; EvData ESC]
                    (initialWorld (constRand (1 # 2)))) = 0%nat
  /\ timers (run [EvPty (Some (mkInfo 30 100)); EvShell; EvData "w"; EvData ESC]
                 (initialWorld (constRand (1 # 2)))) = 0%nat.
Proof.
  assert (R : reachable (run [EvPty (Some (mkInfo 30 100)); EvShell; EvData "w"; EvData ESC]
                             (initialWorld (constRand (1 # 2))))).
  { apply reachable_run, reach_init.
    intros n. split; vm_compute; [discriminate | reflexivity]. }
  assert (L : listeners (run [EvPty (Some (mkInfo 30 100)); EvShell; EvData "w"; EvData ESC]
                             (initialWorld (constRand (1 # 2)))) = 0%nat)
    by reflexivity.
  split; [exact R|]. split; [exact L|].
  exact (proj1 (nothing_moves_before_startGame _ R L)).
Defined.

(** ** Terminal sizes *)

(** X9.  A size with both numbers non-zero replaces [rows] and [columns]
    whatever size came before it, through either handler.  A size with a
    zero in it, or no size at all, is ignored as a whole by both handlers
    in every world: its non-zero number is not applied either. *)
Theorem last_valid_size_wins
        (info1 : option PtyInfo) (i2 : PtyInfo) (r c : N) (w : World) :
  valid_info i2 ->
  let w' := exec (onWindowChange (Some i2)) (exec (onPty info1) w) in
  rows (game w') = Z.of_N (info_rows i2)
  /\ columns (game w') = Z.of_N (info_cols i2)
  /\ w' = exec (onPty (Some i2)) w
  /\ exec (onPty (Some (mkInfo 0 c))) w = w
  /\ exec (onPty (Some (mkInfo r 0))) w = w
  /\ exec (onPty None) w = w
  /\ exec (onWindowChange (Some (mkInfo 0 c))) w = w
  /\ exec (onWindowChange (Some (mkInfo r 0))) w = w
  /\ exec (onWindowChange None) w = w.
Proof.
  intros [Hr Hc]. cbv zeta.
  apply N.eqb_neq in Hr, Hc.
  assert (E2 : forall v : World,
             exec (onWindowChange (Some i2)) v
             = withGame (set_columns (Z.of_N (info_cols i2))
                           (set_rows (Z.of_N (info_rows i2)) (game v))) v).
  { intros v. unfold onWindowChange, truthy. rewrite exec_when, Hr, Hc. reflexivity. }
  rewrite E2. split; [reflexivity|]. split; [reflexivity|]. split.
  - change (exec (onPty (Some i2)) w) with (exec (onWindowChange (Some i2)) w).
    rewrite E2.
    destruct (resize_game info1 w) as [[E|(i & _ & _ & _ & E)] _]; rewrite E;
      reflexivity.
  - repeat split; unfold onPty, onWindowChange, truthy; rewrite ?exec_when;
      cbn [info_rows info_cols N.eqb negb andb]; rewrite ?andb_false_r; reflexivity.
Qed.

(** Witness of X9: 30 x 100 after 10 x 80 on the default board, and a
    size of 0 x 100 and of 30 x 0 on that board. *)
Lemma last_valid_size_wins_witness :
  valid_info (mkInfo 30 100)
  /\ rows (game (exec (onWindowChange (Some (mkInfo 30 100)))
                      (exec (onPty (Some (mkInfo 10 80))) playing))) = 30%Z
  /\ exec (onPty (Some (mkInfo 0 100))) playing = playing
  /\ exec (onWindowChange (Some (mkInfo 30 0))) playing = playing.
Proof.
  assert (V : valid_info (mkInfo 30 100)) by (split; discriminate).
  split; [exact V|].
  destruct (last_valid_size_wins (Some (mkInfo 10 80)) (mkInfo 30 100) 30 100 playing V)
    as (A & _ & _ & B & _ & _ & _ & C & _).
  split; [exact A|]. split; [exact B|exact C].
Defined.

(** X10.  The board is never empty: in every reachable world [rows] and
    [columns] are at least 1, because both size handlers ignore a size
    with a zero. *)
Theorem board_is_never_empty (w : World) :
  reachable w -> (1 <= rows (game w))%Z /\ (1 <= columns (game w))%Z.
Proof.
  intros R. destruct (reachable_invariant w R) as (_ & A & B). lia.
Qed.

(** Witness of X10: the game after its terminal has shrunk. *)
Lemma board_is_never_empty_witness :
  reachable shrunk /\ (1 <= rows (game shrunk))%Z.
Proof.
  assert (R : reachable shrunk).
  { unfold shrunk. apply reachable_run, reach_init.
    intros n. split; vm_compute; [discriminate | reflexivity]. }
  split; [exact R|].
  exact (proj1 (board_is_never_empty shrunk R)).
Defined.

(** ** The host key *)

(** X11.  The host key survives a restart.  After the program has
    started once the file holds the key it uses; a second start uses this
    same key, whatever key it could have generated, and leaves the file as
    it is.  An existing file is never overwritten. *)
Theorem host_key_persists (g1 g2 : string) (file : option string) :
  let first := loadHostKey g1 file in
  let second := loadHostKey g2 (snd first) in
  snd first = Some (fst first)
  /\ fst second = fst first
  /\ snd second = snd first
  /\ (file = None \/ snd first = file).
Proof.
  destruct file as [content|]; cbn; auto.
Qed.

(** ** The paddles stay on the board while the terminal keeps its size *)

Lemma moveAIPaddle_bounds (w : World) :
  paddleRight_in_bounds (game w) ->
  paddleRight_in_bounds (game (exec moveAIPaddle w)).
Proof.
  unfold paddleRight_in_bounds. intros [H0 H1].
  unfold moveAIPaddle, moveSpeed, Num.gtb. rewrite exec_read.
  set (p := paddleRight (game w)) in *. set (y := ballY (game w)).
  set (top := inject_Z (rows (game w)) - 6) in *.
  destruct (Num.ltb y (p + 2.5 - 1)); [|destruct (Num.ltb (p + 2.5 + 1) y)];
    actions; fold p top; clearbody p y top; split; trivial; minmax; lra.
Qed.

Lemma gameLoop_paddleRight (w : World) :
  paddleRight_in_bounds (game w) ->
  paddleRight_in_bounds (game (exec gameLoop w)).
Proof.
  intros B. destruct (paused (game w)) eqn:P.
  - rewrite gameLoop_paused by exact P. exact B.
  - rewrite gameLoop_running by exact P.
    set (v := exec checkScoring (exec moveBall w)).
    change (paddleRight_in_bounds (game (exec moveAIPaddle v))).
    apply moveAIPaddle_bounds.
    assert (E : paddleRight (game v) = paddleRight (game w)
                /\ rows (game v) = rows (game w)).
    { subst v. destruct (moveBall_world w) as (vx & vy & k & E). rewrite E. clear E.
      set (u := dropRand k _).
      destruct (checkScoring_world u) as [(_ & E)|[(_ & _ & E)|(_ & _ & E)]];
        rewrite E; clear E; rewrite ?resetBall_game; split; reflexivity. }
    destruct E as [E1 E2]. unfold paddleRight_in_bounds. now rewrite E1, E2.
Qed.

Lemma start_row_in_bounds (r : Z) :
  (6 <= r)%Z ->
  0 <= inject_Z (r / 2) - 3 /\ inject_Z (r / 2) - 3 <= inject_Z r - 6.
Proof.
  intros H.
  assert (A : inject_Z (r / 2) - 3 == inject_Z (r / 2 - 3)).
  { unfold Z.sub. rewrite inject_Z_plus. reflexivity. }
  assert (B : inject_Z r - 6 == inject_Z (r - 6)).
  { unfold Z.sub. rewrite inject_Z_plus. reflexivity. }
  rewrite A, B. change 0 with (inject_Z 0). rewrite <- !Zle_Qle.
  pose proof (Z.div_mod r 2 ltac:(lia)).
  pose proof (Z.mod_pos_bound r 2 ltac:(lia)). lia.
Qed.

Lemma rows_at_least_6 (s : GameState) :
  paddleLeft_in_bounds s -> (6 <= rows s)%Z.
Proof.
  intros [L U].
  assert (B : inject_Z (rows s) - 6 == inject_Z (rows s - 6)).
  { unfold Z.sub. rewrite inject_Z_plus. reflexivity. }
  assert (H : inject_Z 0 <= inject_Z (rows s - 6)).
  { rewrite <- B. change (inject_Z 0) with 0. lra. }
  rewrite <- Zle_Qle in H. lia.
Qed.

(** [startGame] on a board of at least 6 rows. *)
Lemma startGame_on_board (w : World) :
  (6 <= rows (game w))%Z -> paddles_on_board (game (exec startGame w)).
Proof.
  intros H. destruct (start_row_in_bounds _ H) as [L U].
  destruct (startGame_paddleLeft w) as (A & B & _).
  unfold paddles_on_board, paddleLeft_in_bounds. rewrite A, B.
  split; [apply (is_int_minus _ 3), is_int_inject|]. split; [now split|].
  rewrite startGame_world. apply gameLoop_paddleRight.
  unfold paddleRight_in_bounds. actions. rewrite resetBall_game. actions.
  rewrite NumFacts.floor_half. now split.
Qed.

(** X12.  [startGame] puts both paddles on the board when the terminal
    has at least 6 rows: the left paddle on the integer row
    [floor(rows / 2) - 3], the right paddle within [0, rows - 6] after the
    first tick.  On a smaller terminal the left paddle starts at a
    negative row, off the board. *)
Theorem startGame_places_the_paddles (w : World) :
  let s' := game (exec startGame w) in
  paddleLeft s' = inject_Z (rows (game w) / 2) - 3
  /\ rows s' = rows (game w)
  /\ ((6 <= rows (game w))%Z /\ paddles_on_board s'
      \/ (rows (game w) < 6)%Z /\ paddleLeft s' < 0).
Proof.
  cbv zeta. destruct (startGame_paddleLeft w) as (A & B & _).
  split; [exact A|]. split; [exact B|].
  destruct (Z_le_gt_dec 6 (rows (game w))) as [H|H].
  - left. split; [exact H|]. now apply startGame_on_board.
  - right. split; [lia|]. rewrite A.
    assert (E : inject_Z (rows (game w) / 2) - 3 == inject_Z (rows (game w) / 2 - 3)).
    { unfold Z.sub. rewrite inject_Z_plus. reflexivity. }
    rewrite E. change 0 with (inject_Z 0). rewrite <- Zlt_Qlt.
    pose proof (Z.div_mod (rows (game w)) 2 ltac:(lia)).
    pose proof (Z.mod_pos_bound (rows (game w)) 2 ltac:(lia)). lia.
Qed.

(** X13.  While the terminal keeps its size the paddles stay on the
    board: a callback other than a size change that finds the left paddle
    on an integer row within [0, rows - 6] and the right paddle within
    [0, rows - 6] leaves them so, and leaves [rows] as it is. *)
Theorem paddles_stay_on_board (e : Event) (w : World) :
  is_resize e = false ->
  paddles_on_board (game w) ->
  paddles_on_board (game (exec (step e) w))
  /\ rows (game (exec (step e) w)) = rows (game w).
Proof.
  intros NR (I & BL & BR).
  assert (G : forall u : World,
             paddles_on_board (game u) ->
             paddles_on_board (game (exec gameLoop u))
             /\ rows (game (exec gameLoop u)) = rows (game u)).
  { intros u (Iu & BLu & BRu).
    destruct (gameLoop_frame u) as ((A & _ & B & _) & _).
    split; [|exact B]. unfold paddles_on_board, paddleLeft_in_bounds in *.
    rewrite A, B. split; [exact Iu|]. split; [exact BLu|].
    now apply gameLoop_paddleRight. }
  assert (Keep : paddles_on_board (game w)) by exact (conj I (conj BL BR)).
  destruct e as [info|info| | | |key|]; try discriminate NR.
  - split; [exact Keep|reflexivity].
  - split; [exact Keep|reflexivity].
  - rewrite exec_step_start. destruct (starts w) as [|n]; [now split|].
    split.
    + apply startGame_on_board. cbn [game]. now apply rows_at_least_6.
    + match goal with |- context [exec startGame ?u] =>
        destruct (startGame_paddleLeft u) as (_ & B & _); exact B end.
  - rewrite exec_step_data. destruct (listeners w) as [|n]; [now split|].
    destruct (String.eqb key ESC) eqn:K;
      [apply String.eqb_eq in K|apply String.eqb_neq in K].
    + subst key. rewrite handleData_ESC. destruct (paused (game w)).
      * apply (G (withGame (set_paused false (game w)) w)). exact Keep.
      * split; [exact Keep|reflexivity].
    + rewrite handleData_key by exact K. unfold Num.gtb.
      destruct BL as [L U].
      assert (Top : Num.is_int (inject_Z (rows (game w)) - 6))
        by apply (is_int_minus _ 6), is_int_inject.
      destruct (String.eqb key "w" && Num.ltb 0 (paddleLeft (game w))) eqn:C1.
      * apply andb_true_iff in C1. destruct C1 as [_ C1]. compare_as C1.
        pose proof (int_lt_succ 0 _ (is_int_inject 0) I C1).
        split; [|reflexivity]. unfold paddles_on_board, paddleLeft_in_bounds.
        actions. split; [apply (is_int_minus _ 1), I|]. split; [split; lra|exact BR].
      * destruct (String.eqb key "s"
                  && Num.ltb (paddleLeft (game w)) (inject_Z (rows (game w)) - 6)) eqn:C2.
        -- apply andb_true_iff in C2. destruct C2 as [_ C2]. compare_as C2.
           pose proof (int_lt_succ _ _ I Top C2).
           split; [|reflexivity]. unfold paddles_on_board, paddleLeft_in_bounds.
           actions. split; [apply (is_int_plus _ 1), I|]. split; [split; lra|exact BR].
        -- split; [exact Keep|reflexivity].
  - rewrite exec_step_timer. destruct (timers w) as [|n]; [now split|].
    match goal with |- context [exec gameLoop ?u] => apply (G u) end. exact Keep.
Qed.

(** Witness of X13: ['s'] on the default board. *)
Lemma paddles_stay_on_board_witness :
  is_resize (EvData "s") = false
  /\ paddles_on_board (game playing)
  /\ paddles_on_board (game (exec (step (EvData "s")) playing)).
Proof.
  assert (NR : is_resize (EvData "s") = false) by reflexivity.
  assert (B : paddles_on_board (game playing)).
  { split; [exists 9%Z; vm_compute; reflexivity|].
    split; split; vm_compute; discriminate. }
  split; [exact NR|]. split; [exact B|].
  exact (proj1 (paddles_stay_on_board (EvData "s") playing NR B)).
Defined.

(** ** The bars of a frame *)

Section Bars.

Local Open Scope string_scope.

Lemma count_app (c : ascii) (a b : string) :
  count c (a ++ b) = (count c a + count c b)%nat.
Proof.
  induction a as [|x a IH]; cbn [append count]; [reflexivity|].
  rewrite IH. apply Nat.add_assoc.
Qed.

Lemma count_digits (d : Decimal.uint) :
  count "|"%char (NilEmpty.string_of_uint d) = 0%nat.
Proof. induction d; cbn; trivial. Qed.

Lemma count_num (z : Z) : count "|"%char (num z) = 0%nat.
Proof.
  unfold num, NilZero.string_of_int, NilZero.string_of_uint.
  destruct (Z.to_int z) as [d|d]; destruct d; cbn; try reflexivity;
    apply count_digits.
Qed.

(** A loop that appends to [output] a piece with [k] bars each time. *)
Lemma count_fold (f : nat -> string) (k : nat) (l : list nat) (acc : string) :
  (forall i, count "|"%char (f i) = k) ->
  count "|"%char (fold_left (fun output i => output ++ f i) l acc)
  = (count "|"%char acc + k * List.length l)%nat.
Proof.
  intros H. revert acc. induction l as [|i l IH]; intros acc; cbn [fold_left List.length].
  - lia.
  - rewrite IH, count_app, H. lia.
Qed.

(** X14.  A frame draws two paddles of six cells each and a middle bar
    with one cell in every row: the byte ['|'] occurs exactly
    [12 + rows] times in it (12 times when [rows] is not positive),
    whatever the positions and the scores. *)
Theorem frame_draws_paddles_and_bar (s : GameState) :
  count "|"%char (frame s) = (12 + Z.to_nat (rows s))%nat.
Proof.
  unfold frame.
  rewrite !count_app.
  rewrite (count_fold (barCell s) 1).
  - rewrite (count_fold (paddleCells s) 2).
    + rewrite !length_seq. unfold ballCell, scoreCells.
      rewrite !count_app, !count_num. cbn. lia.
    + intros i. unfold paddleCells. rewrite !count_app, !count_num. reflexivity.
  - intros i. unfold barCell. rewrite !count_app, !count_num. reflexivity.
Qed.

End Bars.

(** ** What the ball's functions leave alone *)

(** X15.  [resetBall] touches nothing but the ball: the paddles, the
    scores, the pause flag and the board are as before, nothing is
    written and no timer is armed; and it takes exactly four values from
    the random source. *)
Theorem resetBall_touches_only_the_ball (w : World) :
  let s := game w in
  let w' := exec resetBall w in
  (paddleLeft (game w') = paddleLeft s /\ paddleRight (game w') = paddleRight s
   /\ scoreLeft (game w') = scoreLeft s /\ scoreRight (game w') = scoreRight s
   /\ paused (game w') = paused s
   /\ rows (game w') = rows s /\ columns (game w') = columns s)
  /\ (forall n : nat, rand w' n = rand w (4 + n)%nat)
  /\ timers w' = timers w /\ starts w' = starts w
  /\ listeners w' = listeners w /\ written w' = written w.
Proof.
  cbv zeta. destruct (resetBall_world w) as (R & T & S & L & W).
  rewrite resetBall_game, R, T, S, L, W.
  cbn [paddleLeft paddleRight scoreLeft scoreRight paused rows columns].
  repeat split.
Qed.

(** X16.  A call of [gameLoop], paused or not, never moves the left
    paddle, never changes the pause flag or the size of the board, and
    always arms exactly one timer: only the player moves the left paddle,
    and a tick loop goes on for ever. *)
Theorem gameLoop_leaves_player_and_board_alone (w : World) :
  let w' := exec gameLoop w in
  paddleLeft (game w') = paddleLeft (game w)
  /\ paused (game w') = paused (game w)
  /\ rows (game w') = rows (game w)
  /\ columns (game w') = columns (game w)
  /\ timers w' = S (timers w)
  /\ starts w' = starts w
  /\ listeners w' = listeners w.
Proof.
  cbv zeta. destruct (gameLoop_frame w) as ((A & B & C & D) & T & S & L).
  repeat split; assumption.
Qed.
